(** * CryptoKitties genome visualiser: the genome decoder and the
      trait-relation classifier of [src/app/page.tsx].

    The two pure functions of the page, [splitGenesToQuads] and
    [deriveTraitRelation], are embedded together with the JavaScript
    built-ins they call ([BigInt], [BigInt.prototype.toString],
    [String.prototype.padStart], [split], [slice], [unshift], [join],
    [String.prototype.at]).  A JavaScript string is a sequence of UTF-16
    code units; an exception is an explicit [Throw] completion. *)

From Stdlib Require Import String Ascii.
From Stdlib Require Import ZArith List Lia Bool.
Import ListNotations.
Local Open Scope Z_scope.

(** ** JavaScript values *)

Module JS.

(** A UTF-16 code unit, as its numeric value. *)
Definition code_unit := Z.

(** A JavaScript string: its code units in order. *)
Definition jsstring := list code_unit.

(** The string written as an ASCII literal. *)
Definition js (s : string) : jsstring :=
  map (fun c => Z.of_N (N_of_ascii c)) (list_ascii_of_string s).

Inductive js_error : Type :=
| SyntaxError
| RangeError.

(** The outcome of evaluating an expression or a function body. *)
Inductive completion (A : Type) : Type :=
| Normal (a : A)
| Throw (e : js_error).

Arguments Normal {A} a.
Arguments Throw {A} e.

Definition bind {A B : Type} (c : completion A) (k : A -> completion B)
  : completion B :=
  match c with
  | Normal a => k a
  | Throw e => Throw e
  end.

(** [try { body } catch { handler }], the handler binding no exception. *)
Definition try_catch {A : Type} (body handler : completion A) : completion A :=
  match body with
  | Normal a => Normal a
  | Throw _ => handler
  end.

(** [for (let i = 0; i < count; i++) body], the loop state passed along. *)
Fixpoint for_from {S : Type} (count : nat) (i : Z) (body : Z -> S -> S) (st : S) : S :=
  match count with
  | O => st
  | Datatypes.S c => for_from c (i + 1) body (body i st)
  end.

Definition for_upto {S : Type} (count : nat) (body : Z -> S -> S) (st : S) : S :=
  for_from count 0 body st.

(** *** Strings *)

Fixpoint string_eqb (a b : jsstring) : bool :=
  match a, b with
  | [], [] => true
  | x :: a', y :: b' => (x =? y) && string_eqb a' b'
  | _, _ => false
  end.

(** [===] on values that are a string or [undefined]. *)
Definition strict_eq (a b : option jsstring) : bool :=
  match a, b with
  | None, None => true
  | Some x, Some y => string_eqb x y
  | _, _ => false
  end.

(** ToBoolean on a string or [undefined]: only [undefined] and the empty
    string are falsy. *)
Definition truthy (v : option jsstring) : bool :=
  match v with
  | Some (_ :: _) => true
  | _ => false
  end.

(** [String.prototype.at(index)]: a negative index counts from the end;
    out of range gives [undefined]. *)
Definition String_at (s : jsstring) (index : Z) : option jsstring :=
  let len := Z.of_nat (length s) in
  let k := if index >=? 0 then index else len + index in
  if (k <? 0) || (k >=? len) then None
  else Some [nth (Z.to_nat k) s 0].

(** [q?.at(index)]. *)
Definition opt_at (q : option jsstring) (index : Z) : option jsstring :=
  match q with
  | None => None
  | Some s => String_at s index
  end.

(** [s.split("")]: one string per code unit. *)
Definition String_split (s : jsstring) : list jsstring :=
  map (fun c => [c]) s.

(** [a.join("")]. *)
Definition Array_join (a : list jsstring) : jsstring := concat a.

(** [String.prototype.padStart(maxLength, fillString)]. *)
Definition String_padStart (s : jsstring) (maxLength : nat) (fillString : jsstring)
  : jsstring :=
  let len := length s in
  if (maxLength <=? len)%nat then s
  else match fillString with
       | [] => s
       | _ :: _ =>
           firstn (maxLength - len) (concat (repeat fillString (maxLength - len))) ++ s
       end.

(** *** Arrays *)

(** A relative index of [slice], clamped to [0 .. len]. *)
Definition rel_index (len idx : Z) : Z :=
  if idx <? 0 then Z.max (len + idx) 0 else Z.min idx len.

(** [Array.prototype.slice(start, end)]; [end_ = None] is an omitted end. *)
Definition Array_slice {A : Type} (l : list A) (start : Z) (end_ : option Z) : list A :=
  let len := Z.of_nat (length l) in
  let k := rel_index len start in
  let final := match end_ with
               | None => len
               | Some e => rel_index len e
               end in
  firstn (Z.to_nat (final - k)) (skipn (Z.to_nat k) l).

(** [a.unshift(x)], as the new contents of the array. *)
Definition Array_unshift {A : Type} (x : A) (a : list A) : list A := x :: a.

(** *** BigInt *)

(** StrWhiteSpaceChar: WhiteSpace (TAB, VT, FF, SP, NBSP, ZWNBSP and the
    space separators) and LineTerminator (LF, CR, LS, PS). *)
Definition is_whitespace (c : code_unit) : bool :=
  ((9 <=? c) && (c <=? 13))
  || (c =? 32) || (c =? 160) || (c =? 5760)
  || ((8192 <=? c) && (c <=? 8202))
  || (c =? 8232) || (c =? 8233) || (c =? 8239) || (c =? 8287)
  || (c =? 12288) || (c =? 65279).

Fixpoint drop_ws (s : jsstring) : jsstring :=
  match s with
  | [] => []
  | c :: t => if is_whitespace c then drop_ws t else s
  end.

Definition trim (s : jsstring) : jsstring :=
  rev (drop_ws (rev (drop_ws s))).

(** The value of a digit [0-9a-zA-Z] in the largest radix. *)
Definition digit_value (c : code_unit) : option Z :=
  if (48 <=? c) && (c <=? 57) then Some (c - 48)
  else if (97 <=? c) && (c <=? 122) then Some (c - 87)
  else if (65 <=? c) && (c <=? 90) then Some (c - 55)
  else None.

Fixpoint parse_digits (radix acc : Z) (s : jsstring) : option Z :=
  match s with
  | [] => Some acc
  | c :: t =>
      match digit_value c with
      | Some d => if d <? radix then parse_digits radix (acc * radix + d) t else None
      | None => None
      end
  end.

(** One or more digits of the radix. *)
Definition parse_number (radix : Z) (s : jsstring) : option Z :=
  match s with
  | [] => None
  | _ :: _ => parse_digits radix 0 s
  end.

(** StringToBigInt: the StringIntegerLiteral grammar.  Surrounding white
    space is dropped; nothing left is 0; a decimal literal may carry a
    sign; [0x], [0o] and [0b] literals may not. *)
Definition StringToBigInt (s : jsstring) : option Z :=
  match trim s with
  | [] => Some 0
  | 43 :: t => parse_number 10 t
  | 45 :: t => option_map Z.opp (parse_number 10 t)
  | 48 :: 120 :: t | 48 :: 88 :: t => parse_number 16 t
  | 48 :: 111 :: t | 48 :: 79 :: t => parse_number 8 t
  | 48 :: 98 :: t | 48 :: 66 :: t => parse_number 2 t
  | t => parse_number 10 t
  end.

(** [BigInt(s)] on a string argument. *)
Definition BigInt (s : jsstring) : completion Z :=
  match StringToBigInt s with
  | Some v => Normal v
  | None => Throw SyntaxError
  end.

(** The digits of a positive number, least significant first. *)
Fixpoint digits_lsd (radix : Z) (fuel : nat) (n : Z) : list Z :=
  match fuel with
  | O => []
  | Datatypes.S f =>
      if n =? 0 then [] else (n mod radix) :: digits_lsd radix f (n / radix)
  end.

(** The character of a digit: [0-9] then [a-z]. *)
Definition digit_char (d : Z) : code_unit :=
  if d <? 10 then 48 + d else 87 + d.

Definition render_nat (radix n : Z) : jsstring :=
  if n =? 0 then [48]
  else map digit_char (rev (digits_lsd radix (Datatypes.S (Z.to_nat (Z.log2 n))) n)).

(** [BigInt.prototype.toString(radix)]: a radix outside 2..36 is a
    RangeError; no leading zeros, a minus sign before a negative value. *)
Definition BigInt_toString (x radix : Z) : completion jsstring :=
  if (radix <? 2) || (36 <? radix) then Throw RangeError
  else if x <? 0 then Normal (45 :: render_nat radix (- x))
  else Normal (render_nat radix x).

End JS.

Import JS.

(** ** The page's functions *)

Inductive TraitRelation : Type :=
| allShare
| parentsOnlyShare
| matronKittenShare
| sireKittenShare
| mutation.

(** [splitGenesToQuads], before its [try] is closed by [catch]. *)
Definition splitGenesToQuads_body (genesBigIntString : jsstring)
  : completion (list jsstring) :=
  bind (BigInt genesBigIntString) (fun big =>
  bind (BigInt_toString big 16) (fun digits =>
  let hex := String_padStart digits 64 (js "0") in
  let nibbles := String_split hex in
  let last48 := Array_slice nibbles (-48) None in
  let groups :=
    for_upto 12 (fun i groups =>
      let start := Z.of_nat (length last48) - (i + 1) * 4 in
      Array_unshift (Array_join (Array_slice last48 start (Some (start + 4)))) groups)
      [] in
  Normal groups)).

Definition splitGenesToQuads (genesBigIntString : jsstring)
  : completion (list jsstring) :=
  try_catch (splitGenesToQuads_body genesBigIntString) (Normal []).

(** The loop of [splitGenesToQuads] on its own, as a function of the array
    it reads; [splitGenesToQuads_body_loop] below folds it back. *)
Definition quads_loop (last48 : list jsstring) : list jsstring :=
  for_upto 12 (fun i groups =>
    let start := Z.of_nat (length last48) - (i + 1) * 4 in
    Array_unshift (Array_join (Array_slice last48 start (Some (start + 4)))) groups)
    [].

Definition deriveTraitRelation (matronQuad sireQuad kittenQuad : option jsstring)
  : TraitRelation :=
  let m := opt_at matronQuad (-1) in
  let s := opt_at sireQuad (-1) in
  let k := opt_at kittenQuad (-1) in
  if truthy m && truthy s && truthy k then
    if strict_eq m s && strict_eq s k then allShare
    else if strict_eq m s && negb (strict_eq k m) then parentsOnlyShare
    else if strict_eq m k && negb (strict_eq s k) then matronKittenShare
    else if strict_eq s k && negb (strict_eq m k) then sireKittenShare
    else mutation
  else mutation.

(** ** The decoder as the specification words it

    Parse the decimal string as an unsigned integer; render it in
    hexadecimal, left-padded with zeros to 64 digits; keep the rightmost 48
    digits; cut them into 12 consecutive groups of 4, most significant
    first.  The rendering is positional: digit [j] from the right of [v] is
    [(v / 16^j) mod 16]. *)

Module Spec.

Definition is_decimal_digit (c : code_unit) : bool :=
  (48 <=? c) && (c <=? 57).

(** A valid non-negative decimal string: one or more of [0-9]. *)
Definition valid_decimal (s : jsstring) : bool :=
  match s with
  | [] => false
  | _ :: _ => forallb is_decimal_digit s
  end.

(** The integer a decimal string denotes. *)
Definition decimal_value (s : jsstring) : Z :=
  fold_left (fun acc c => acc * 10 + (c - 48)) s 0.

(** A hexadecimal character, either case. *)
Definition is_hex_char (c : code_unit) : bool :=
  ((48 <=? c) && (c <=? 57)) || ((97 <=? c) && (c <=? 102))
  || ((65 <=? c) && (c <=? 70)).

(** Digit [j], counted from the least significant end. *)
Definition digit_at (v : Z) (j : nat) : Z := (v / 16 ^ Z.of_nat j) mod 16.

Definition hex_digit_at (v : Z) (j : nat) : code_unit := digit_char (digit_at v j).

(** [v] written on exactly [n] hexadecimal digits, most significant first. *)
Definition hex_fixed (n : nat) (v : Z) : jsstring :=
  map (hex_digit_at v) (rev (seq 0 n)).

(** The number of hexadecimal digits of [v] without leading zeros. *)
Definition hex_width (v : Z) : nat :=
  if v =? 0 then 1%nat else Datatypes.S (Z.to_nat (Z.log2 v / 4)).

(** Hexadecimal, left-padded with zeros to 64 digits. *)
Definition padded_hex (v : Z) : jsstring :=
  hex_fixed (Nat.max 64 (hex_width v)) v.

Definition rightmost {A : Type} (n : nat) (l : list A) : list A :=
  skipn (length l - n) l.

(** [count] consecutive groups of [size] elements, in order. *)
Definition partition {A : Type} (size count : nat) (l : list A) : list (list A) :=
  map (fun g => firstn size (skipn (size * g) l)) (seq 0 count).

Definition decoder (s : jsstring) : list jsstring :=
  partition 4 12 (rightmost 48 (padded_hex (decimal_value s))).

End Spec.

(** ** The rest of the page: records, rendering data and the trait table *)

(** [a || b] on a string or [undefined] with a string default. *)
Definition or_else (a : option jsstring) (b : jsstring) : jsstring :=
  match a with
  | Some (c :: t) => c :: t
  | _ => b
  end.

(** [a ?? b]. *)
Definition nullish {A : Type} (a : option A) (b : A) : A :=
  match a with
  | Some x => x
  | None => b
  end.

(** [a.map((x, idx) => f(x, idx))]. *)
Fixpoint Array_map_from {A B : Type} (f : A -> nat -> B) (idx : nat) (a : list A)
  : list B :=
  match a with
  | [] => []
  | x :: t => f x idx :: Array_map_from f (S idx) t
  end.

Definition Array_map {A B : Type} (f : A -> nat -> B) (a : list A) : list B :=
  Array_map_from f 0%nat a.

(** [a.some((x, idx) => f(x, idx))]; the callback may fail ([None]: a
    TypeError), which ends the scan. *)
Fixpoint Array_some_from {A : Type} (f : A -> nat -> option bool) (idx : nat)
  (a : list A) : option bool :=
  match a with
  | [] => Some false
  | x :: t =>
      match f x idx with
      | None => None
      | Some true => Some true
      | Some false => Array_some_from f (S idx) t
      end
  end.

Definition Array_some {A : Type} (f : A -> nat -> option bool) (a : list A)
  : option bool :=
  Array_some_from f 0%nat a.

Module Birth.
Record t : Type := make {
  id : jsstring;
  owner : jsstring;
  kittyId : jsstring;
  matronId : jsstring;
  sireId : jsstring;
  genes : jsstring
}.
End Birth.

(** [next.config]: the remote image patterns. *)
Module RemotePattern.
Record t : Type := make {
  protocol : jsstring;
  hostname : jsstring
}.
End RemotePattern.

Definition nextConfig_remotePatterns : list RemotePattern.t :=
  [ RemotePattern.make (js "https") (js "img.cryptokitties.co") ].

Definition kittyImageUrl (id : option jsstring) : option jsstring :=
  if negb (truthy id) then None
  else Some (js "https://img.cryptokitties.co/0x06012c8cf97bead5deae237070f9587f8e7a266d/"
             ++ nullish id [] ++ js ".svg").

Definition TraitRelation_eqb (a b : TraitRelation) : bool :=
  match a, b with
  | allShare, allShare
  | parentsOnlyShare, parentsOnlyShare
  | matronKittenShare, matronKittenShare
  | sireKittenShare, sireKittenShare
  | mutation, mutation => true
  | _, _ => false
  end.

Definition relationBgClass (relation : TraitRelation) : jsstring :=
  match relation with
  | allShare => js "bg-emerald-100/60 dark:bg-emerald-900/30"
  | parentsOnlyShare => js "bg-rose-100/60 dark:bg-rose-900/30"
  | matronKittenShare => js "bg-amber-100/60 dark:bg-amber-900/30"
  | sireKittenShare => js "bg-sky-100/60 dark:bg-sky-900/30"
  | mutation => js "bg-fuchsia-100/50 dark:bg-fuchsia-900/20"
  end.

(** One character box: its text [c] and whether it takes the dominant
    style ([idx === 3]). *)
Module Cell.
Record t : Type := make {
  c : jsstring;
  isDominant : bool
}.
End Cell.

(** [Quad]: the four boxes it renders. *)
Definition Quad (quad : option jsstring) : list Cell.t :=
  let chars := if truthy quad then String_split (nullish quad []) else [] in
  Array_map (fun _ idx =>
    let c := nullish (nth_error chars idx) (js "") in
    let isDominant := Nat.eqb idx 3 in
    Cell.make c isDominant)
    (repeat tt 4).

(** [TraitRow]: per parent or kitten, the boxes of [g?.split("").map(...)];
    [None] where [g] is absent and nothing is rendered. *)
Definition TraitRow (matron sire kitten : option jsstring) : list (option (list Cell.t)) :=
  let cells := [matron; sire; kitten] in
  Array_map (fun g _ =>
    option_map (fun s =>
      Array_map (fun c idx => Cell.make c (Nat.eqb idx 3)) (String_split s)) g)
    cells.

(** One box of a genome strip: its background class and its [Quad]. *)
Module StripCell.
Record t : Type := make {
  bg : jsstring;
  quad : list Cell.t
}.
End StripCell.

(** [GenomeStrip]: the gene strip it renders. *)
Definition GenomeStrip (groups matronGroups sireGroups kittenGroups : list jsstring)
  : list StripCell.t :=
  Array_map (fun quad idx =>
    let relation :=
      deriveTraitRelation (nth_error matronGroups idx) (nth_error sireGroups idx)
        (nth_error kittenGroups idx) in
    let bg := relationBgClass relation in
    StripCell.make bg (Quad (Some quad)))
    groups.

(** The [items] of [Legend]: label and class. *)
Definition Legend_items : list (jsstring * jsstring) :=
  [ (js "Matron, Sire & Kitten share", js "bg-emerald-100/60 dark:bg-emerald-900/30");
    (js "Parents share, Kitten different", js "bg-rose-100/60 dark:bg-rose-900/30");
    (js "Matron & Kitten share", js "bg-amber-100/60 dark:bg-amber-900/30");
    (js "Sire & Kitten share", js "bg-sky-100/60 dark:bg-sky-900/30");
    (js "Mutation (dot on kitten)", js "bg-fuchsia-100/50 dark:bg-fuchsia-900/20") ].

(** The legend written out in [Home]. *)
Definition Home_legend_items : list (jsstring * jsstring) :=
  [ (js "All share", js "bg-emerald-100/60 dark:bg-emerald-900/30");
    (js "Parents share", js "bg-rose-100/60 dark:bg-rose-900/30");
    (js "Matron + Kitten", js "bg-amber-100/60 dark:bg-amber-900/30");
    (js "Sire + Kitten", js "bg-sky-100/60 dark:bg-sky-900/30");
    (js "Mutation", js "bg-fuchsia-100/50 dark:bg-fuchsia-900/20") ].

Module Trait.
Record t : Type := make {
  label : jsstring;
  matron : option jsstring;
  sire : option jsstring;
  kitten : option jsstring
}.
End Trait.

Definition labels : list jsstring :=
  map js [ "Unknown"; "Unknown"; "Unknown"; "Mouth"; "Wild"; "Tummy Colour";
           "Pattern Colour"; "Body Colour"; "Eye Type"; "Eye Colour"; "Pattern";
           "Body (Tail)" ]%string.

(** The [traits] memo of [Home], from the three records of its state
    ([None]: [null], nothing loaded). *)
Definition traits (matron sire kitten : option Birth.t) : completion (list Trait.t) :=
  bind (splitGenesToQuads (or_else (option_map Birth.genes matron) (js ""))) (fun m =>
  bind (splitGenesToQuads (or_else (option_map Birth.genes sire) (js ""))) (fun s =>
  bind (splitGenesToQuads (or_else (option_map Birth.genes kitten) (js ""))) (fun k =>
  Normal (Array_map (fun label idx =>
            Trait.make label (nth_error m idx) (nth_error s idx) (nth_error k idx))
            labels)))).

(** [hasAnyMutation] of [Home]; [None] would be the TypeError of reading a
    field of an absent [traits[idx]]. *)
Definition hasAnyMutation (traits : list Trait.t) : option bool :=
  Array_some (fun _ idx =>
    match nth_error traits idx with
    | None => None
    | Some t =>
        let relation :=
          deriveTraitRelation (Trait.matron t) (Trait.sire t) (Trait.kitten t) in
        Some (TraitRelation_eqb relation mutation)
    end)
    traits.

(** A group the classifier cannot read a dominant character from. *)
Definition absent_or_empty (q : option jsstring) : Prop :=
  q = None \/ q = Some [].

(** The relation seen with matron and sire exchanged. *)
Definition swap_parents (r : TraitRelation) : TraitRelation :=
  match r with
  | matronKittenShare => sireKittenShare
  | sireKittenShare => matronKittenShare
  | other => other
  end.

(** Whether a row is in the mutation bucket. *)
Definition row_is_mutation (t : Trait.t) : bool :=
  TraitRelation_eqb
    (deriveTraitRelation (Trait.matron t) (Trait.sire t) (Trait.kitten t)) mutation.

(** A record of the state that contributes no genes: not loaded, or with
    an empty [genes] string. *)
Definition no_genes (b : option Birth.t) : Prop :=
  b = None \/ exists r, b = Some r /\ Birth.genes r = [].

(** ** Arrays as objects: the decoder over a heap

    Arrays are mutable objects: [split], [slice] and an array literal
    allocate a new one, [unshift] writes to the one it is called on.  The
    decoder is given a second time with the arrays in a heap, so that what a
    run finds in the heap, and what it leaves there, can be stated. *)

Module Heap.

(** The address of an array object. *)
Definition loc := nat.

(** The array objects, by address. *)
Definition heap := list (list jsstring).

(** A computation that reads and writes the heap and may throw. *)
Definition M (A : Type) : Type := heap -> heap * completion A.

Definition ret {A : Type} (a : A) : M A := fun h => (h, Normal a).

Definition bind {A B : Type} (m : M A) (k : A -> M B) : M B :=
  fun h =>
    match m h with
    | (h', Normal a) => k a h'
    | (h', Throw e) => (h', Throw e)
    end.

(** An expression that touches no array. *)
Definition lift {A : Type} (c : completion A) : M A := fun h => (h, c).

(** [try { body } catch { handler }]: the handler runs in the heap the body
    left. *)
Definition try_catch {A : Type} (body handler : M A) : M A :=
  fun h =>
    match body h with
    | (h', Normal a) => (h', Normal a)
    | (h', Throw _) => handler h'
    end.

Definition deref (h : heap) (l : loc) : list jsstring := nth l h [].

Fixpoint update (h : heap) (l : loc) (a : list jsstring) : heap :=
  match h, l with
  | [], _ => []
  | _ :: t, O => a :: t
  | x :: t, S l' => x :: update t l' a
  end.

(** A new array object with the given elements, at the next address. *)
Definition alloc (a : list jsstring) : M loc :=
  fun h => (h ++ [a], Normal (length h)).

Definition get (l : loc) : M (list jsstring) := fun h => (h, Normal (deref h l)).

Definition put (l : loc) (a : list jsstring) : M unit :=
  fun h => (update h l a, Normal tt).

(** [a.length]. *)
Definition length_of (a : loc) : M Z :=
  bind (get a) (fun elems => ret (Z.of_nat (length elems))).

(** [a.slice(start, end)]: a new array. *)
Definition slice (a : loc) (start : Z) (end_ : option Z) : M loc :=
  bind (get a) (fun elems => alloc (Array_slice elems start end_)).

(** [a.join("")]. *)
Definition join (a : loc) : M jsstring :=
  bind (get a) (fun elems => ret (Array_join elems)).

(** [a.unshift(x)]: writes to [a]. *)
Definition unshift (a : loc) (x : jsstring) : M unit :=
  bind (get a) (fun elems => put a (Array_unshift x elems)).

(** [for (let i = ...; ...; i++) body], [count] iterations from [i]. *)
Fixpoint for_from (count : nat) (i : Z) (body : Z -> M unit) : M unit :=
  match count with
  | O => ret tt
  | S c => bind (body i) (fun _ => for_from c (i + 1) body)
  end.

Definition for_upto (count : nat) (body : Z -> M unit) : M unit :=
  for_from count 0 body.

End Heap.

(** [splitGenesToQuads] over the heap: the result is the address of the
    array it returns. *)
Definition splitGenesToQuads_heap (genesBigIntString : jsstring) : Heap.M Heap.loc :=
  Heap.try_catch
    (Heap.bind (Heap.lift (BigInt genesBigIntString)) (fun big =>
     Heap.bind (Heap.lift (BigInt_toString big 16)) (fun digits =>
     let hex := String_padStart digits 64 (js "0") in
     Heap.bind (Heap.alloc (String_split hex)) (fun nibbles =>
     Heap.bind (Heap.slice nibbles (-48) None) (fun last48 =>
     Heap.bind (Heap.alloc []) (fun groups =>
     Heap.bind
       (Heap.for_upto 12 (fun i =>
          Heap.bind (Heap.length_of last48) (fun len =>
          let start := len - (i + 1) * 4 in
          Heap.bind (Heap.slice last48 start (Some (start + 4))) (fun part =>
          Heap.bind (Heap.join part) (fun quad =>
          Heap.unshift groups quad)))))
       (fun _ => Heap.ret groups)))))))
    (Heap.alloc []).

(** ** Sample runs *)

Example decode_small :
  splitGenesToQuads (js "4660") =
  Normal (map js ["0000"; "0000"; "0000"; "0000"; "0000"; "0000";
                  "0000"; "0000"; "0000"; "0000"; "0000"; "1234"])%string.
Proof. vm_compute. reflexivity. Qed.

Example decode_abc : splitGenesToQuads (js "abc") = Normal [].
Proof. reflexivity. Qed.

(** ** The trait-relation classifier *)

Section Classifier.

Lemma string_eqb_eq (a b : jsstring) : string_eqb a b = true <-> a = b.
Proof.
  revert b; induction a as [|x a IH]; intros [|y b]; simpl; split;
    try congruence; try reflexivity.
  - intros H. apply andb_true_iff in H as [Hx Hr].
    apply Z.eqb_eq in Hx. apply IH in Hr. congruence.
  - intros H. injection H as -> ->. rewrite Z.eqb_refl. simpl. now apply IH.
Qed.

Lemma string_eqb_single (x y : code_unit) : string_eqb [x] [y] = (x =? y).
Proof. simpl. apply andb_true_r. Qed.

(** On a non-empty string [at(-1)] is the one-unit string of its last
    code unit. *)
Lemma String_at_last (s : jsstring) :
  s <> [] -> String_at s (-1) = Some [last s 0].
Proof.
  intros Hs. destruct (exists_last Hs) as [l [a ->]].
  unfold String_at. cbv zeta. rewrite last_last, length_app. simpl length.
  replace (Z.of_nat (length l + 1) + -1) with (Z.of_nat (length l)) by lia.
  change (-1 >=? 0) with false. cbv iota.
  assert (H1 : (Z.of_nat (length l) <? 0) = false) by (apply Z.ltb_ge; lia).
  assert (H2 : (Z.of_nat (length l) >=? Z.of_nat (length l + 1)) = false)
    by (rewrite Z.geb_leb; apply Z.leb_gt; lia).
  rewrite H1, H2. simpl. rewrite Nat2Z.id, nth_middle. reflexivity.
Qed.

(** The classifier on three non-empty groups, as a decision on the three
    last code units. *)
Lemma deriveTraitRelation_last (mq sq kq : jsstring) :
  mq <> [] -> sq <> [] -> kq <> [] ->
  let m := last mq 0 in
  let s := last sq 0 in
  let k := last kq 0 in
  deriveTraitRelation (Some mq) (Some sq) (Some kq) =
    if (m =? s) && (s =? k) then allShare
    else if (m =? s) && negb (k =? m) then parentsOnlyShare
    else if (m =? k) && negb (s =? k) then matronKittenShare
    else if (s =? k) && negb (m =? k) then sireKittenShare
    else mutation.
Proof.
  intros Hm Hs Hk. unfold deriveTraitRelation, opt_at.
  rewrite (String_at_last mq Hm), (String_at_last sq Hs), (String_at_last kq Hk).
  cbn [truthy andb strict_eq]. rewrite !string_eqb_single. reflexivity.
Qed.

End Classifier.

(** C1: with all three groups present and non-empty and m, s, k their
    last characters, the classifier returns allShare when m = s = k,
    parentsOnlyShare when m = s and k differs, matronKittenShare (the
    matron-offspring bucket) when m = k and s differs, sireKittenShare (the
    sire-offspring bucket) when s = k and m differs, and mutation when the
    three are pairwise distinct; the five sample calls give the five
    buckets in that order. *)
Theorem classifier_cases (mq sq kq : jsstring) (m s k : code_unit) :
  mq <> [] -> sq <> [] -> kq <> [] ->
  m = last mq 0 -> s = last sq 0 -> k = last kq 0 ->
  let r := deriveTraitRelation (Some mq) (Some sq) (Some kq) in
  (m = s /\ s = k -> r = allShare) /\
  (m = s /\ k <> m -> r = parentsOnlyShare) /\
  (m = k /\ s <> k -> r = matronKittenShare) /\
  (s = k /\ m <> k -> r = sireKittenShare) /\
  (m <> s /\ m <> k /\ s <> k -> r = mutation) /\
  deriveTraitRelation (Some (js "1234")) (Some (js "5674")) (Some (js "9994"))
    = allShare /\
  deriveTraitRelation (Some (js "1235")) (Some (js "5675")) (Some (js "9996"))
    = parentsOnlyShare /\
  deriveTraitRelation (Some (js "1235")) (Some (js "5676")) (Some (js "9995"))
    = matronKittenShare /\
  deriveTraitRelation (Some (js "1236")) (Some (js "5675")) (Some (js "9995"))
    = sireKittenShare /\
  deriveTraitRelation (Some (js "1236")) (Some (js "5677")) (Some (js "9998"))
    = mutation.
Proof.
  intros Hm Hs Hk -> -> -> r. subst r.
  rewrite (deriveTraitRelation_last mq sq kq Hm Hs Hk). cbv zeta.
  repeat split; try reflexivity.
  - intros [E1 E2]. rewrite E1, E2, !Z.eqb_refl. reflexivity.
  - intros [E1 N]. rewrite E1, Z.eqb_refl.
    destruct (Z.eqb_spec (last sq 0) (last kq 0)) as [E|_]; [congruence|].
    destruct (Z.eqb_spec (last kq 0) (last sq 0)) as [E|_]; [congruence|].
    reflexivity.
  - intros [E1 N]. rewrite E1, Z.eqb_refl.
    destruct (Z.eqb_spec (last kq 0) (last sq 0)) as [E|_]; [congruence|].
    destruct (Z.eqb_spec (last sq 0) (last kq 0)) as [E|_]; [congruence|].
    reflexivity.
  - intros [E1 N]. rewrite E1, Z.eqb_refl.
    destruct (Z.eqb_spec (last mq 0) (last kq 0)) as [E|_]; [congruence|].
    destruct (Z.eqb_spec (last kq 0) (last mq 0)) as [E|_]; [congruence|].
    reflexivity.
  - intros [N1 [N2 N3]].
    destruct (Z.eqb_spec (last mq 0) (last sq 0)) as [E|_]; [congruence|].
    destruct (Z.eqb_spec (last mq 0) (last kq 0)) as [E|_]; [congruence|].
    destruct (Z.eqb_spec (last sq 0) (last kq 0)) as [E|_]; [congruence|].
    reflexivity.
Qed.

Lemma classifier_cases_witness :
  deriveTraitRelation (Some (js "12ab")) (Some (js "77cb")) (Some (js "000b"))
    = allShare.
Proof.
  refine (proj1 (classifier_cases (js "12ab") (js "77cb") (js "000b") 98 98 98
                   _ _ _ eq_refl eq_refl eq_refl) (conj eq_refl eq_refl));
    discriminate.
Defined.

(** C5: when any of the three groups is absent (undefined), the classifier
    returns mutation. *)
Theorem classifier_absent (mq sq kq : option jsstring) :
  mq = None \/ sq = None \/ kq = None ->
  deriveTraitRelation mq sq kq = mutation.
Proof.
  unfold deriveTraitRelation.
  intros [-> | [-> | ->]]; simpl.
  - reflexivity.
  - now rewrite andb_false_r.
  - now rewrite andb_false_r.
Qed.

Lemma classifier_absent_witness :
  deriveTraitRelation (Some (js "1234")) None (Some (js "1234")) = mutation.
Proof.
  apply (classifier_absent (Some (js "1234")) None (Some (js "1234"))).
  right; left; reflexivity.
Defined.

(** C9: the classifier's result depends only on the last character of each
    argument: two triples of non-empty groups whose last characters agree
    position by position are classified alike. *)
Theorem classifier_dominant_only (m1 s1 k1 m2 s2 k2 : jsstring) :
  m1 <> [] -> s1 <> [] -> k1 <> [] ->
  m2 <> [] -> s2 <> [] -> k2 <> [] ->
  last m1 0 = last m2 0 -> last s1 0 = last s2 0 -> last k1 0 = last k2 0 ->
  deriveTraitRelation (Some m1) (Some s1) (Some k1) =
  deriveTraitRelation (Some m2) (Some s2) (Some k2).
Proof.
  intros Hm1 Hs1 Hk1 Hm2 Hs2 Hk2 Em Es Ek.
  rewrite (deriveTraitRelation_last m1 s1 k1 Hm1 Hs1 Hk1).
  rewrite (deriveTraitRelation_last m2 s2 k2 Hm2 Hs2 Hk2).
  cbv zeta. rewrite Em, Es, Ek. reflexivity.
Qed.

Lemma classifier_dominant_only_witness :
  deriveTraitRelation (Some (js "1235")) (Some (js "5676")) (Some (js "9995")) =
  deriveTraitRelation (Some (js "ffff5")) (Some (js "6")) (Some (js "0a5")).
Proof.
  apply (classifier_dominant_only
           (js "1235") (js "5676") (js "9995") (js "ffff5") (js "6") (js "0a5"));
    (discriminate || reflexivity).
Defined.

(** ** Hexadecimal rendering *)

Section Rendering.

Import Spec.

Lemma pow16_pos (k : nat) : 0 < 16 ^ Z.of_nat k.
Proof. apply Z.pow_pos_nonneg; lia. Qed.

Lemma pow16_succ (k : nat) : 16 ^ Z.of_nat (S k) = 16 * 16 ^ Z.of_nat k.
Proof. rewrite Nat2Z.inj_succ. apply Z.pow_succ_r. lia. Qed.

Lemma digit_at_zero (v : Z) : digit_at v 0 = v mod 16.
Proof. unfold digit_at. simpl. now rewrite Z.div_1_r. Qed.

Lemma digit_at_succ (v : Z) (j : nat) : digit_at v (S j) = digit_at (v / 16) j.
Proof.
  unfold digit_at. rewrite pow16_succ.
  rewrite Z.div_div by (try lia; pose proof (pow16_pos j); lia).
  reflexivity.
Qed.

Lemma digit_at_range (v : Z) (j : nat) : 0 <= digit_at v j < 16.
Proof. unfold digit_at. apply Z.mod_pos_bound. lia. Qed.

(** Above the width of [v] every digit is zero. *)
Lemma digit_at_high (v : Z) (k j : nat) :
  0 <= v < 16 ^ Z.of_nat k -> (k <= j)%nat -> digit_at v j = 0.
Proof.
  intros Hv Hkj. unfold digit_at.
  rewrite Z.div_small; [reflexivity|].
  split; [lia|]. apply Z.lt_le_trans with (16 ^ Z.of_nat k); [lia|].
  apply Z.pow_le_mono_r; lia.
Qed.

(** The digit loop produces the positional digits, lowest first. *)
Lemma digits_lsd_seq (fuel : nat) :
  forall (n : Z) (k : nat),
    0 <= n < 16 ^ Z.of_nat k ->
    (k = 0%nat \/ 16 ^ Z.of_nat (k - 1) <= n) ->
    (k <= fuel)%nat ->
    digits_lsd 16 fuel n = map (digit_at n) (seq 0 k).
Proof.
  induction fuel as [|f IH]; intros n k Hn Hlow Hk.
  - assert (k = 0%nat) by lia. subst k. reflexivity.
  - simpl. destruct (Z.eqb_spec n 0) as [->|Hnz].
    + destruct k as [|k]; [reflexivity|].
      destruct Hlow as [H|H]; [discriminate|].
      pose proof (pow16_pos (S k - 1)). lia.
    + destruct k as [|k]; [simpl in Hn; lia|].
      simpl seq. simpl map. rewrite digit_at_zero. f_equal.
      rewrite <- seq_shift, map_map.
      rewrite (IH (n / 16) k).
      * apply map_ext. intros j. symmetry. apply digit_at_succ.
      * rewrite pow16_succ in Hn. split.
        -- apply Z.div_pos; lia.
        -- apply Z.div_lt_upper_bound; lia.
      * destruct k as [|k]; [left; reflexivity|right].
        destruct Hlow as [H|H]; [discriminate|].
        replace (S (S k) - 1)%nat with (S k) in H by lia.
        replace (S k - 1)%nat with k by lia.
        rewrite pow16_succ in H.
        apply Z.div_le_lower_bound; lia.
      * lia.
Qed.

(** [hex_width] brackets a positive number between two powers of 16 and
    stays within the fuel of the digit loop. *)
Lemma hex_width_spec (n : Z) :
  0 < n ->
  16 ^ Z.of_nat (hex_width n - 1) <= n < 16 ^ Z.of_nat (hex_width n)
  /\ (hex_width n <= S (Z.to_nat (Z.log2 n)))%nat.
Proof.
  intros Hn. unfold hex_width.
  destruct (Z.eqb_spec n 0) as [->|_]; [lia|].
  pose proof (Z.log2_nonneg n) as Hl.
  pose proof (Z.log2_spec n Hn) as [Hlo Hhi].
  assert (Hq : 0 <= Z.log2 n / 4) by (apply Z.div_pos; lia).
  pose proof (Z.mul_div_le (Z.log2 n) 4 ltac:(lia)) as Hle.
  pose proof (Z.mul_succ_div_gt (Z.log2 n) 4 ltac:(lia)) as Hgt.
  replace (S (Z.to_nat (Z.log2 n / 4)) - 1)%nat with (Z.to_nat (Z.log2 n / 4)) by lia.
  rewrite Nat2Z.inj_succ, !Z2Nat.id by lia.
  change 16 with (2 ^ 4). rewrite <- !Z.pow_mul_r by lia.
  repeat split.
  - apply Z.le_trans with (2 ^ Z.log2 n); [|lia].
    apply Z.pow_le_mono_r; lia.
  - apply Z.lt_le_trans with (2 ^ Z.succ (Z.log2 n)); [lia|].
    apply Z.pow_le_mono_r; lia.
  - apply le_n_S. apply Z2Nat.inj_le; try lia.
Qed.

(** [toString(16)] of a non-negative value is its positional rendering on
    [hex_width] digits. *)
Lemma render_nat_fixed (n : Z) :
  0 <= n -> render_nat 16 n = hex_fixed (hex_width n) n.
Proof.
  intros Hn. unfold render_nat.
  destruct (Z.eqb_spec n 0) as [->|Hnz]; [reflexivity|].
  destruct (hex_width_spec n ltac:(lia)) as [[Hlo Hhi] Hfuel].
  rewrite (digits_lsd_seq _ n (hex_width n)); [| lia | right; exact Hlo | lia].
  unfold hex_fixed, hex_digit_at. now rewrite <- map_rev, map_map.
Qed.

Lemma hex_width_bound (n : Z) : 0 <= n -> n < 16 ^ Z.of_nat (hex_width n).
Proof.
  intros Hn. destruct (Z.eq_dec n 0) as [->|Hnz]; [reflexivity|].
  apply hex_width_spec. lia.
Qed.

End Rendering.

(** ** Padding, slicing and grouping *)

Section Slicing.

Import Spec.

Lemma concat_repeat_single {A : Type} (c : A) (k : nat) :
  concat (repeat [c] k) = repeat c k.
Proof. induction k as [|k IH]; simpl; [reflexivity | now rewrite IH]. Qed.

(** Padding with a one-unit filler prepends the missing number of copies. *)
Lemma String_padStart_single (s : jsstring) (n : nat) (c : code_unit) :
  String_padStart s n [c] = repeat c (n - length s) ++ s.
Proof.
  unfold String_padStart. cbv zeta.
  destruct (Nat.leb_spec n (length s)) as [Hle|Hlt]; cbv iota.
  - replace (n - length s)%nat with 0%nat by lia. reflexivity.
  - change (concat (repeat [c] (n - length s)))
      with (@concat Z (repeat [c] (n - length s))).
    rewrite concat_repeat_single, firstn_all2; [reflexivity|].
    rewrite repeat_length. lia.
Qed.

Lemma String_padStart_length (s : jsstring) (n : nat) (c : code_unit) :
  (n <= length (String_padStart s n [c]))%nat.
Proof. rewrite String_padStart_single, length_app, repeat_length. lia. Qed.

(** The digits above the width are the padding zeros. *)
Lemma hex_fixed_extend (v : Z) (k d : nat) :
  0 <= v < 16 ^ Z.of_nat k ->
  hex_fixed (k + d) v = repeat 48 d ++ hex_fixed k v.
Proof.
  intros Hv. unfold hex_fixed.
  rewrite seq_app, rev_app_distr, map_app. f_equal.
  rewrite <- (length_seq d (0 + k)) at 2.
  rewrite <- (length_rev (seq (0 + k) d)), <- map_const.
  apply map_ext_in. intros j Hj.
  apply in_rev, in_seq in Hj. unfold hex_digit_at.
  rewrite (digit_at_high v k j Hv); [reflexivity | lia].
Qed.

(** Padding the code's rendering to 64 gives the specification's padded
    rendering. *)
Lemma padded_render (v : Z) :
  0 <= v -> String_padStart (render_nat 16 v) 64 (js "0") = padded_hex v.
Proof.
  intros Hv. change (js "0") with [48].
  rewrite String_padStart_single, render_nat_fixed by assumption.
  unfold padded_hex.
  assert (Hlen : length (hex_fixed (hex_width v) v) = hex_width v)
    by (unfold hex_fixed; now rewrite length_map, length_rev, length_seq).
  rewrite Hlen.
  replace (Nat.max 64 (hex_width v)) with (hex_width v + (64 - hex_width v))%nat by lia.
  symmetry. apply hex_fixed_extend.
  split; [assumption | now apply hex_width_bound].
Qed.

Lemma hex_fixed_length (n : nat) (v : Z) : length (hex_fixed n v) = n.
Proof. unfold hex_fixed. now rewrite length_map, length_rev, length_seq. Qed.

Lemma firstn_seq_le (n w start : nat) :
  (n <= w)%nat -> firstn n (seq start w) = seq start n.
Proof.
  intros H. replace w with (n + (w - n))%nat by lia.
  rewrite seq_app, firstn_app, length_seq, Nat.sub_diag. simpl firstn at 2.
  rewrite app_nil_r. apply firstn_all2. rewrite length_seq. lia.
Qed.

(** The rightmost digits of a rendering are the rendering on fewer digits. *)
Lemma rightmost_hex_fixed (n w : nat) (v : Z) :
  (n <= w)%nat -> rightmost n (hex_fixed w v) = hex_fixed n v.
Proof.
  intros Hnw. unfold rightmost. rewrite hex_fixed_length. unfold hex_fixed.
  rewrite skipn_map, skipn_rev, length_seq.
  replace (w - (w - n))%nat with n by lia.
  now rewrite firstn_seq_le.
Qed.

Lemma rightmost_padded_hex (v : Z) : rightmost 48 (padded_hex v) = hex_fixed 48 v.
Proof. unfold padded_hex. apply rightmost_hex_fixed. lia. Qed.

Lemma rightmost_length {A : Type} (n : nat) (l : list A) :
  (n <= length l)%nat -> length (rightmost n l) = n.
Proof. intros H. unfold rightmost. rewrite length_skipn. lia. Qed.

(** [slice(-48)] on an array of at least 48 elements keeps the last 48. *)
Lemma Array_slice_last48 {A : Type} (l : list A) :
  (48 <= length l)%nat -> Array_slice l (-48) None = rightmost 48 l.
Proof.
  intros Hl. unfold Array_slice, rel_index, rightmost.
  change (-48 <? 0) with true. cbv iota.
  rewrite Z.max_l by lia.
  replace (Z.to_nat (Z.of_nat (length l) - (Z.of_nat (length l) + -48))) with 48%nat by lia.
  replace (Z.to_nat (Z.of_nat (length l) + -48)) with (length l - 48)%nat by lia.
  apply firstn_all2. rewrite length_skipn. lia.
Qed.

(** Filling from the right with [unshift] yields the groups left to right. *)
Lemma quads_loop_partition (w : jsstring) :
  length w = 48%nat -> quads_loop (String_split w) = partition 4 12 w.
Proof.
  intros Hw.
  do 48 (destruct w as [|? w]; [discriminate Hw|]).
  destruct w; [|discriminate Hw].
  reflexivity.
Qed.

End Slicing.

(** ** Decimal input *)

Section Parsing.

Import Spec.

Lemma decimal_digit_range (c : code_unit) :
  is_decimal_digit c = true <-> 48 <= c <= 57.
Proof. unfold is_decimal_digit. rewrite andb_true_iff, !Z.leb_le. reflexivity. Qed.

Lemma decimal_digit_not_ws (c : code_unit) :
  is_decimal_digit c = true -> is_whitespace c = false.
Proof.
  intros H. apply decimal_digit_range in H. unfold is_whitespace.
  repeat (apply orb_false_intro);
    try (apply Z.eqb_neq; lia);
    apply andb_false_iff; rewrite !Z.leb_gt; lia.
Qed.

Lemma decimal_digit_value (c : code_unit) :
  is_decimal_digit c = true -> digit_value c = Some (c - 48).
Proof. unfold digit_value, is_decimal_digit. now intros ->. Qed.

Lemma drop_ws_digit (c : code_unit) (t : jsstring) :
  is_decimal_digit c = true -> drop_ws (c :: t) = c :: t.
Proof. intros H. simpl. now rewrite (decimal_digit_not_ws c H). Qed.

(** A string of digits has no white space to drop at either end. *)
Lemma trim_decimal (s : jsstring) :
  forallb is_decimal_digit s = true -> trim s = s.
Proof.
  intros H. unfold trim.
  assert (Hd : forall l, forallb is_decimal_digit l = true -> drop_ws l = l).
  { intros [|c t] Hl; [reflexivity|]. apply drop_ws_digit.
    simpl in Hl. now apply andb_true_iff in Hl. }
  rewrite (Hd s H), Hd; [apply rev_involutive|].
  apply forallb_forall. intros x Hx. apply in_rev in Hx.
  revert x Hx. now apply forallb_forall.
Qed.

Lemma parse_digits_decimal (s : jsstring) :
  forall acc, forallb is_decimal_digit s = true ->
    parse_digits 10 acc s = Some (fold_left (fun a c => a * 10 + (c - 48)) s acc).
Proof.
  induction s as [|c t IH]; intros acc H; [reflexivity|].
  simpl in H. apply andb_true_iff in H as [Hc Ht].
  simpl. rewrite (decimal_digit_value c Hc).
  apply decimal_digit_range in Hc.
  destruct (Z.ltb_spec (c - 48) 10) as [_|Hge]; [|lia].
  now apply IH.
Qed.

Lemma decimal_digit_cases (c : code_unit) :
  is_decimal_digit c = true ->
  c = 48 \/ c = 49 \/ c = 50 \/ c = 51 \/ c = 52 \/
  c = 53 \/ c = 54 \/ c = 55 \/ c = 56 \/ c = 57.
Proof. intros H. apply decimal_digit_range in H. lia. Qed.

(** On a valid decimal string [StringToBigInt] takes the unsigned decimal
    branch: no sign, and no radix prefix since [x], [o], [b] are not
    digits. *)
Lemma StringToBigInt_decimal (s : jsstring) :
  valid_decimal s = true -> StringToBigInt s = Some (decimal_value s).
Proof.
  intros H. unfold StringToBigInt, decimal_value.
  destruct s as [|c t]; [discriminate|]. simpl in H.
  rewrite trim_decimal by exact H.
  rewrite <- (parse_digits_decimal (c :: t) 0 H).
  apply andb_true_iff in H as [Hc Ht].
  destruct (decimal_digit_cases c Hc)
    as [->|[->|[->|[->|[->|[->|[->|[->|[->| ->]]]]]]]]]; try reflexivity.
  destruct t as [|d t]; [reflexivity|].
  simpl in Ht. apply andb_true_iff in Ht as [Hd _].
  destruct (decimal_digit_cases d Hd)
    as [->|[->|[->|[->|[->|[->|[->|[->|[->| ->]]]]]]]]]; reflexivity.
Qed.

Lemma decimal_value_nonneg (s : jsstring) :
  forallb is_decimal_digit s = true -> 0 <= decimal_value s.
Proof.
  unfold decimal_value.
  assert (G : forall a, 0 <= a ->
              forallb is_decimal_digit s = true ->
              0 <= fold_left (fun a c => a * 10 + (c - 48)) s a).
  { induction s as [|c t IH]; intros a Ha H; [exact Ha|].
    simpl in H. apply andb_true_iff in H as [Hc Ht].
    apply decimal_digit_range in Hc. simpl. apply IH; [lia|exact Ht]. }
  intros H. apply G; [lia|exact H].
Qed.

Lemma valid_decimal_digits (s : jsstring) :
  valid_decimal s = true -> forallb is_decimal_digit s = true.
Proof. destruct s; [discriminate|]. exact (fun H => H). Qed.

Lemma BigInt_decimal (s : jsstring) :
  valid_decimal s = true ->
  BigInt s = Normal (decimal_value s) /\ 0 <= decimal_value s.
Proof.
  intros H. unfold BigInt. rewrite (StringToBigInt_decimal s H).
  split; [reflexivity|]. now apply decimal_value_nonneg, valid_decimal_digits.
Qed.

End Parsing.

(** ** The genome decoder *)

Section Decoder.

Import Spec.

Lemma splitGenesToQuads_body_loop (s : jsstring) :
  splitGenesToQuads_body s =
  bind (BigInt s) (fun big =>
  bind (BigInt_toString big 16) (fun digits =>
  Normal (quads_loop
    (Array_slice (String_split (String_padStart digits 64 (js "0"))) (-48) None)))).
Proof. reflexivity. Qed.

(** Radix 16 is in range: the rendering never throws. *)
Lemma BigInt_toString_16 (v : Z) :
  BigInt_toString v 16 =
  Normal (if v <? 0 then 45 :: render_nat 16 (- v) else render_nat 16 v).
Proof. unfold BigInt_toString. simpl. now destruct (v <? 0). Qed.

(** From the padded digits to the groups. *)
Lemma quads_of_digits (digits : jsstring) :
  quads_loop (Array_slice (String_split (String_padStart digits 64 (js "0"))) (-48) None)
  = partition 4 12 (rightmost 48 (String_padStart digits 64 (js "0"))).
Proof.
  change (js "0") with [48].
  set (hex := String_padStart digits 64 [48]).
  assert (Hlen : (64 <= length hex)%nat) by apply String_padStart_length.
  rewrite Array_slice_last48 by (unfold String_split; rewrite length_map; lia).
  unfold rightmost, String_split. rewrite length_map, skipn_map.
  apply (quads_loop_partition (skipn (length hex - 48) hex)).
  rewrite length_skipn. lia.
Qed.

(** Whatever integer is parsed, the decoder returns the 12 groups of the
    last 48 characters of the padded rendering. *)
Lemma decoder_parsed (s : jsstring) (v : Z) :
  BigInt s = Normal v ->
  splitGenesToQuads s =
  Normal (partition 4 12 (rightmost 48
    (String_padStart (if v <? 0 then 45 :: render_nat 16 (- v) else render_nat 16 v)
       64 (js "0")))).
Proof.
  intros Hv. unfold splitGenesToQuads.
  rewrite splitGenesToQuads_body_loop, Hv. simpl bind.
  rewrite BigInt_toString_16. simpl bind. simpl try_catch.
  now rewrite quads_of_digits.
Qed.

Lemma decoder_rejected (s : jsstring) (e : js_error) :
  BigInt s = Throw e -> splitGenesToQuads s = Normal [].
Proof.
  intros He. unfold splitGenesToQuads.
  rewrite splitGenesToQuads_body_loop, He. reflexivity.
Qed.

Lemma partition_length {A : Type} (size count : nat) (l : list A) :
  length (partition size count l) = count.
Proof. unfold partition. now rewrite length_map, length_seq. Qed.

Lemma forallb_firstn {A : Type} (p : A -> bool) (n : nat) (l : list A) :
  forallb p l = true -> forallb p (firstn n l) = true.
Proof.
  revert l; induction n as [|n IH]; intros [|x l] H; try reflexivity.
  simpl in *. apply andb_true_iff in H as [Hx Hl].
  rewrite Hx. now apply IH.
Qed.

Lemma forallb_skipn {A : Type} (p : A -> bool) (n : nat) (l : list A) :
  forallb p l = true -> forallb p (skipn n l) = true.
Proof.
  revert l; induction n as [|n IH]; intros [|x l] H; try reflexivity; try exact H.
  simpl in *. apply andb_true_iff in H as [_ Hl]. now apply IH.
Qed.

(** Every group of a partition that fits in the list is full, and keeps
    any property of the list's elements. *)
Lemma partition_groups {A : Type} (p : A -> bool) (size count : nat) (l : list A) :
  (size * count <= length l)%nat ->
  forallb p l = true ->
  Forall (fun g => length g = size /\ forallb p g = true) (partition size count l).
Proof.
  intros Hfit Hp. apply Forall_forall. intros g Hg.
  unfold partition in Hg. apply in_map_iff in Hg as [i [<- Hi]].
  apply in_seq in Hi. split.
  - rewrite length_firstn, length_skipn. nia.
  - now apply forallb_firstn, forallb_skipn.
Qed.

Lemma partition_concat48 {A : Type} (w : list A) :
  length w = 48%nat -> concat (partition 4 12 w) = w.
Proof.
  intros Hw.
  do 48 (destruct w as [|? w]; [discriminate Hw|]).
  destruct w; [|discriminate Hw].
  reflexivity.
Qed.

Lemma digit_char_hex (d : Z) : 0 <= d < 16 -> is_hex_char (digit_char d) = true.
Proof.
  intros Hd. unfold is_hex_char, digit_char.
  destruct (Z.ltb_spec d 10) as [Hlt|Hge].
  - apply orb_true_iff; left. apply orb_true_iff; left.
    apply andb_true_iff. rewrite !Z.leb_le. lia.
  - apply orb_true_iff; left. apply orb_true_iff; right.
    apply andb_true_iff. rewrite !Z.leb_le. lia.
Qed.

Lemma hex_fixed_hex (n : nat) (v : Z) : forallb is_hex_char (hex_fixed n v) = true.
Proof.
  apply forallb_forall. intros c Hc. unfold hex_fixed in Hc.
  apply in_map_iff in Hc as [j [<- _]].
  apply digit_char_hex, digit_at_range.
Qed.

(** On a valid decimal string the decoder agrees with the specification's
    decoder, whose window is the positional rendering on 48 digits. *)
Lemma decoder_decimal (s : jsstring) :
  valid_decimal s = true ->
  splitGenesToQuads s = Normal (decoder s)
  /\ decoder s = partition 4 12 (hex_fixed 48 (decimal_value s)).
Proof.
  intros H. destruct (BigInt_decimal s H) as [Hbig Hpos].
  rewrite (decoder_parsed s _ Hbig).
  destruct (Z.ltb_spec (decimal_value s) 0) as [Hneg|_]; [lia|].
  unfold decoder. rewrite padded_render by exact Hpos.
  now rewrite rightmost_padded_hex.
Qed.

(** Digits below position [n] only see the value modulo [16^n]. *)
Lemma digit_at_mod (v : Z) (n j : nat) :
  (j < n)%nat -> digit_at (v mod 16 ^ Z.of_nat n) j = digit_at v j.
Proof.
  intros Hj. unfold digit_at.
  pose proof (pow16_pos j) as HP. pose proof (pow16_pos (n - S j)) as HK.
  assert (HM : 16 ^ Z.of_nat n = 16 ^ Z.of_nat j * (16 * 16 ^ Z.of_nat (n - S j))).
  { rewrite <- pow16_succ, <- Z.pow_add_r by lia. f_equal. lia. }
  set (P := 16 ^ Z.of_nat j) in *. set (K := 16 ^ Z.of_nat (n - S j)) in *.
  rewrite HM.
  set (r := v mod (P * (16 * K))).
  assert (Hv : v = r + (16 * K * (v / (P * (16 * K)))) * P).
  { unfold r. rewrite Z.mod_eq by nia. ring. }
  rewrite Hv at 1. rewrite Z.div_add by lia.
  replace (r / P + 16 * K * (v / (P * (16 * K))))
    with (r / P + (K * (v / (P * (16 * K)))) * 16) by ring.
  now rewrite Z.mod_add by lia.
Qed.

Lemma hex_fixed_congruent (n : nat) (v1 v2 : Z) :
  v1 mod 16 ^ Z.of_nat n = v2 mod 16 ^ Z.of_nat n ->
  hex_fixed n v1 = hex_fixed n v2.
Proof.
  intros Hmod. unfold hex_fixed. apply map_ext_in. intros j Hj.
  apply in_rev, in_seq in Hj. unfold hex_digit_at.
  rewrite <- (digit_at_mod v1 n j), <- (digit_at_mod v2 n j) by lia.
  now rewrite Hmod.
Qed.

End Decoder.

(** ** Properties of the decoder *)

(** C2: for every valid non-negative decimal string the decoder returns
    exactly 12 groups, each a string of exactly 4 hexadecimal characters. *)
Theorem decoder_twelve_quads (s : jsstring) :
  Spec.valid_decimal s = true ->
  exists groups,
    splitGenesToQuads s = Normal groups
    /\ length groups = 12%nat
    /\ Forall (fun g => length g = 4%nat /\ forallb Spec.is_hex_char g = true) groups.
Proof.
  intros H. destruct (decoder_decimal s H) as [Hrun Hspec].
  exists (Spec.decoder s). split; [exact Hrun|]. rewrite Hspec. split.
  - apply partition_length.
  - apply partition_groups.
    + rewrite hex_fixed_length. simpl. lia.
    + apply hex_fixed_hex.
Qed.

Lemma decoder_twelve_quads_witness :
  exists groups,
    splitGenesToQuads (js "4660") = Normal groups
    /\ length groups = 12%nat
    /\ Forall (fun g => length g = 4%nat /\ forallb Spec.is_hex_char g = true) groups.
Proof. apply (decoder_twelve_quads (js "4660")). reflexivity. Defined.

(** C3: for every valid non-negative decimal string the decoder's output
    is the one the specified algorithm gives (parse, render in hexadecimal
    padded to 64 digits, keep the rightmost 48, cut into 12 groups of 4
    from the most significant end), and the groups concatenated in output
    order are the rightmost 48 digits of the padded rendering. *)
Theorem decoder_refines_spec (s : jsstring) :
  Spec.valid_decimal s = true ->
  exists groups,
    splitGenesToQuads s = Normal groups
    /\ groups = Spec.decoder s
    /\ concat groups =
       Spec.rightmost 48 (Spec.padded_hex (Spec.decimal_value s)).
Proof.
  intros H. destruct (decoder_decimal s H) as [Hrun Hspec].
  exists (Spec.decoder s). repeat split; [exact Hrun|].
  unfold Spec.decoder. apply partition_concat48.
  rewrite rightmost_padded_hex. apply hex_fixed_length.
Qed.

Lemma decoder_refines_spec_witness :
  exists groups,
    splitGenesToQuads
      (js "626837621154801616088980922659877168609154386318304496692374110716999053")
      = Normal groups
    /\ groups =
       Spec.decoder
         (js "626837621154801616088980922659877168609154386318304496692374110716999053")
    /\ concat groups = js "4ce4b9290146531884721ad18c63298a5308a55ad6b6b58d".
Proof.
  destruct (decoder_refines_spec
    (js "626837621154801616088980922659877168609154386318304496692374110716999053")
    eq_refl) as [groups [Hrun [Hspec Hcat]]].
  exists groups. repeat split; [exact Hrun | exact Hspec |].
  rewrite Hcat. vm_compute. reflexivity.
Defined.

(** C4 as stated fails on the empty string: [BigInt] reads it as 0, so
    the decoder returns twelve groups [0000] and not the empty sequence. *)
Lemma decoder_empty_string_not_empty :
  splitGenesToQuads (js "") = Normal (repeat (js "0000") 12)
  /\ splitGenesToQuads (js "") <> Normal [].
Proof. split; [vm_compute; reflexivity | vm_compute; discriminate]. Qed.

(** C4, amended: the decoder returns the empty sequence exactly on the
    strings [BigInt] rejects as no integer literal, ["abc"] among them;
    the empty string is not rejected and decodes as zero. *)
Theorem decoder_empty_iff_rejected :
  (forall s, BigInt s = Throw SyntaxError <-> splitGenesToQuads s = Normal [])
  /\ BigInt (js "abc") = Throw SyntaxError
  /\ splitGenesToQuads (js "abc") = Normal []
  /\ BigInt (js "") = Normal 0.
Proof.
  split; [|repeat split].
  intros s. split.
  - apply decoder_rejected.
  - destruct (BigInt s) as [v|e] eqn:Hb.
    + rewrite (decoder_parsed s v Hb). intros Hnil.
      injection Hnil as Hnil. unfold Spec.partition in Hnil.
      cbn [seq map] in Hnil. discriminate Hnil.
    + intros _. unfold BigInt in Hb.
      destruct (StringToBigInt s); [discriminate|]. symmetry. exact Hb.
Qed.

(** C6: the decoder never raises: every input string gives a normal
    result, and that result is the empty sequence whenever the body
    throws, in particular when the parse fails. *)
Theorem decoder_total (s : jsstring) :
  exists groups,
    splitGenesToQuads s = Normal groups
    /\ (forall e, splitGenesToQuads_body s = Throw e -> groups = [])
    /\ (forall e, BigInt s = Throw e -> groups = []).
Proof.
  destruct (BigInt s) as [v|e] eqn:Hb.
  - eexists. split; [apply (decoder_parsed s v Hb)|]. split.
    + intros e He. rewrite splitGenesToQuads_body_loop, Hb in He.
      simpl bind in He. rewrite BigInt_toString_16 in He. discriminate.
    + intros e He. discriminate.
  - exists []. split; [apply (decoder_rejected s e Hb)|]. now split.
Qed.

(** C8: the returned sequence has length 0 or exactly 12, whatever the
    input string. *)
Theorem decoder_length (s : jsstring) :
  exists groups,
    splitGenesToQuads s = Normal groups
    /\ (length groups = 0%nat \/ length groups = 12%nat).
Proof.
  destruct (BigInt s) as [v|e] eqn:Hb.
  - eexists. split; [apply (decoder_parsed s v Hb)|].
    right. apply partition_length.
  - exists []. split; [apply (decoder_rejected s e Hb)|]. now left.
Qed.

(** C10: the decoder checks no 256-bit range and sees its input only
    modulo 2^192: two valid decimal strings whose values are congruent
    modulo 2^192 decode to the same 12 groups. *)
Theorem decoder_mod_2_192 (s1 s2 : jsstring) :
  Spec.valid_decimal s1 = true ->
  Spec.valid_decimal s2 = true ->
  Spec.decimal_value s1 mod 2 ^ 192 = Spec.decimal_value s2 mod 2 ^ 192 ->
  exists groups,
    length groups = 12%nat
    /\ splitGenesToQuads s1 = Normal groups
    /\ splitGenesToQuads s2 = Normal groups.
Proof.
  intros H1 H2 Hmod.
  destruct (decoder_decimal s1 H1) as [Hrun1 Hspec1].
  destruct (decoder_decimal s2 H2) as [Hrun2 Hspec2].
  exists (Spec.decoder s1). split; [|split].
  - rewrite Hspec1. apply partition_length.
  - exact Hrun1.
  - rewrite Hrun2, Hspec1, Hspec2. do 2 f_equal.
    symmetry. apply hex_fixed_congruent.
    change (16 ^ Z.of_nat 48) with (2 ^ 192). exact Hmod.
Qed.

Lemma decoder_mod_2_192_witness :
  exists groups,
    length groups = 12%nat
    /\ splitGenesToQuads
         (js "115792089237316195423570985008687907853269984665640564039457584007913129639941")
       = Normal groups
    /\ splitGenesToQuads (js "5") = Normal groups.
Proof.
  apply (decoder_mod_2_192
    (js "115792089237316195423570985008687907853269984665640564039457584007913129639941")
    (js "5")).
  - reflexivity.
  - reflexivity.
  - vm_compute. reflexivity.
Defined.

(** ** More on the decoder: other accepted inputs *)

Section DecoderInputs.

Import Spec.

(** The decoder reads its argument through [BigInt] only. *)
Lemma decoder_by_BigInt (s1 s2 : jsstring) :
  BigInt s1 = BigInt s2 -> splitGenesToQuads s1 = splitGenesToQuads s2.
Proof.
  intros H. unfold splitGenesToQuads.
  now rewrite !splitGenesToQuads_body_loop, H.
Qed.

Lemma drop_ws_prefix (ws s : jsstring) :
  forallb is_whitespace ws = true -> drop_ws (ws ++ s) = drop_ws s.
Proof.
  induction ws as [|c ws IH]; intros H; [reflexivity|].
  simpl in H. apply andb_true_iff in H as [Hc Hws].
  simpl. rewrite Hc. now apply IH.
Qed.

Lemma forallb_rev_ws (ws : jsstring) :
  forallb is_whitespace ws = true -> forallb is_whitespace (rev ws) = true.
Proof.
  intros H. apply forallb_forall. intros x Hx. apply in_rev in Hx.
  revert x Hx. now apply forallb_forall.
Qed.

Lemma drop_ws_suffix (s ws : jsstring) :
  forallb is_whitespace ws = true ->
  drop_ws (rev (drop_ws (s ++ ws))) = drop_ws (rev (drop_ws s)).
Proof.
  intros Hws. induction s as [|c t IH].
  - simpl app. rewrite <- (app_nil_r ws), drop_ws_prefix by exact Hws. reflexivity.
  - simpl. destruct (is_whitespace c); [exact IH|].
    change (c :: t ++ ws) with ((c :: t) ++ ws).
    rewrite rev_app_distr. apply drop_ws_prefix. now apply forallb_rev_ws.
Qed.

Lemma trim_surrounded (ws1 ws2 s : jsstring) :
  forallb is_whitespace ws1 = true -> forallb is_whitespace ws2 = true ->
  trim (ws1 ++ s ++ ws2) = trim s.
Proof.
  intros H1 H2. unfold trim.
  now rewrite drop_ws_prefix, drop_ws_suffix.
Qed.

(** The shape of the result for a parsed non-negative value, whatever
    literal denoted it. *)
Lemma decoder_nonneg (s : jsstring) (v : Z) :
  BigInt s = Normal v -> 0 <= v ->
  splitGenesToQuads s = Normal (partition 4 12 (hex_fixed 48 v)).
Proof.
  intros Hb Hv. rewrite (decoder_parsed s v Hb).
  destruct (Z.ltb_spec v 0) as [Hneg|_]; [lia|].
  now rewrite padded_render, rightmost_padded_hex.
Qed.

Lemma rightmost_app {A : Type} (n : nat) (a b : list A) :
  (n <= length b)%nat -> rightmost n (a ++ b) = rightmost n b.
Proof.
  intros H. unfold rightmost. rewrite length_app, skipn_app.
  replace (length a + length b - n - length a)%nat with (length b - n)%nat by lia.
  rewrite skipn_all2 by lia. reflexivity.
Qed.

Lemma hex_width_le (n : Z) (k : nat) :
  0 < n -> n < 16 ^ Z.of_nat k -> (hex_width n <= k)%nat.
Proof.
  intros Hn Hk. destruct (hex_width_spec n Hn) as [[Hlo _] _].
  assert (Hlt : 16 ^ Z.of_nat (hex_width n - 1) < 16 ^ Z.of_nat k) by lia.
  apply Z.pow_lt_mono_r_iff in Hlt; lia.
Qed.

Lemma hex_width_ge (n : Z) (k : nat) :
  0 < n -> 16 ^ Z.of_nat k <= n -> (k < hex_width n)%nat.
Proof.
  intros Hn Hk. destruct (hex_width_spec n Hn) as [[_ Hhi] _].
  assert (Hlt : 16 ^ Z.of_nat k < 16 ^ Z.of_nat (hex_width n)) by lia.
  apply Z.pow_lt_mono_r_iff in Hlt; lia.
Qed.

Lemma hex_width_pos (n : Z) : (1 <= hex_width n)%nat.
Proof. unfold hex_width. destruct (n =? 0); lia. Qed.

(** The window of a negative value: padding, sign, magnitude. *)
Lemma window_negative_small (n : Z) :
  0 < n -> n < 16 ^ 47 ->
  rightmost 48 (String_padStart (45 :: render_nat 16 n) 64 (js "0"))
  = repeat 48 (47 - hex_width n) ++ 45 :: hex_fixed (hex_width n) n.
Proof.
  intros Hn Hlt. change (js "0") with [48].
  pose proof (hex_width_le n 47 Hn Hlt) as Hw.
  rewrite String_padStart_single, render_nat_fixed by lia.
  simpl length. rewrite hex_fixed_length.
  replace (64 - S (hex_width n))%nat with (16 + (47 - hex_width n))%nat by lia.
  rewrite repeat_app, <- app_assoc.
  rewrite rightmost_app.
  - unfold rightmost. rewrite length_app, repeat_length. simpl length.
    rewrite hex_fixed_length.
    replace (47 - hex_width n + S (hex_width n) - 48)%nat with 0%nat by lia.
    reflexivity.
  - rewrite length_app, repeat_length. simpl length. rewrite hex_fixed_length. lia.
Qed.

Lemma window_negative_large (n : Z) :
  16 ^ 47 <= n ->
  rightmost 48 (String_padStart (45 :: render_nat 16 n) 64 (js "0"))
  = hex_fixed 48 n.
Proof.
  intros Hge. change (js "0") with [48].
  assert (Hn : 0 < n) by lia.
  pose proof (hex_width_ge n 47 Hn Hge) as Hw.
  rewrite String_padStart_single, render_nat_fixed by lia.
  change (45 :: hex_fixed (hex_width n) n) with ([45] ++ hex_fixed (hex_width n) n).
  rewrite app_assoc, rightmost_app by (rewrite hex_fixed_length; lia).
  apply rightmost_hex_fixed. lia.
Qed.

End DecoderInputs.

(** ** Reading the output back *)

Section ReadBack.

Import Spec.

Lemma digit_value_char (d : Z) : 0 <= d < 16 -> digit_value (digit_char d) = Some d.
Proof.
  intros Hd. unfold digit_value, digit_char.
  destruct (Z.ltb_spec d 10) as [Hlt|Hge].
  - assert (H1 : (48 <=? 48 + d) && (48 + d <=? 57) = true)
      by (apply andb_true_iff; rewrite !Z.leb_le; lia).
    rewrite H1. f_equal. lia.
  - assert (H1 : (48 <=? 87 + d) && (87 + d <=? 57) = false)
      by (apply andb_false_iff; right; apply Z.leb_gt; lia).
    assert (H2 : (97 <=? 87 + d) && (87 + d <=? 122) = true)
      by (apply andb_true_iff; rewrite !Z.leb_le; lia).
    rewrite H1, H2. f_equal. lia.
Qed.

Lemma hex_fixed_succ (n : nat) (v : Z) :
  hex_fixed (S n) v = hex_digit_at v n :: hex_fixed n v.
Proof. unfold hex_fixed. rewrite seq_S, rev_app_distr. reflexivity. Qed.

Lemma mod_pow16_succ (v : Z) (n : nat) :
  v mod 16 ^ Z.of_nat (S n) = digit_at v n * 16 ^ Z.of_nat n + v mod 16 ^ Z.of_nat n.
Proof.
  pose proof (pow16_pos n) as HP.
  rewrite pow16_succ, (Z.mul_comm 16), Z.rem_mul_r by lia.
  unfold digit_at. ring.
Qed.

(** Read as a hexadecimal numeral, the rendering on [n] digits is the value
    modulo [16^n]. *)
Lemma parse_digits_hex_fixed (n : nat) (v : Z) :
  forall acc,
    parse_digits 16 acc (hex_fixed n v) = Some (acc * 16 ^ Z.of_nat n + v mod 16 ^ Z.of_nat n).
Proof.
  induction n as [|n IH]; intros acc.
  - simpl. rewrite Z.mod_1_r. f_equal. lia.
  - rewrite hex_fixed_succ. cbn [parse_digits]. unfold hex_digit_at.
    pose proof (digit_at_range v n) as Hd.
    rewrite (digit_value_char _ Hd).
    destruct (Z.ltb_spec (digit_at v n) 16) as [_|Hge]; [|lia].
    rewrite IH, mod_pow16_succ, pow16_succ. f_equal. ring.
Qed.

Lemma hex_char_not_ws (c : code_unit) :
  is_hex_char c = true -> is_whitespace c = false.
Proof.
  unfold is_hex_char. rewrite !orb_true_iff, !andb_true_iff, !Z.leb_le.
  intros H. unfold is_whitespace.
  repeat (apply orb_false_intro);
    try (apply Z.eqb_neq; lia);
    apply andb_false_iff; rewrite !Z.leb_gt; lia.
Qed.

(** A [0x] literal of hexadecimal characters has nothing to trim. *)
Lemma trim_hex_literal (h : jsstring) :
  forallb is_hex_char h = true -> trim (js "0x" ++ h) = js "0x" ++ h.
Proof.
  intros Hh. unfold trim. change (js "0x" ++ h) with (48 :: 120 :: h).
  change (drop_ws (48 :: 120 :: h)) with (48 :: 120 :: h).
  unfold jsstring, code_unit in *.
  remember (rev (48 :: 120 :: h)) as r eqn:Hr. symmetry in Hr.
  destruct r as [|c t].
  - apply (f_equal (@length _)) in Hr. rewrite length_rev in Hr. discriminate.
  - assert (Hc : is_whitespace c = false).
    { assert (Hin : In c (48 :: 120 :: h)) by (apply in_rev; rewrite Hr; now left).
      destruct Hin as [E|[E|Hin]]; try (rewrite <- E; reflexivity).
      apply hex_char_not_ws. exact (proj1 (forallb_forall _ _) Hh c Hin). }
    cbn [drop_ws]. rewrite Hc, <- Hr. apply rev_involutive.
Qed.

Lemma parse_number_hex_fixed (n : nat) (v : Z) :
  parse_number 16 (hex_fixed (S n) v) = Some (v mod 16 ^ Z.of_nat (S n)).
Proof.
  unfold parse_number.
  destruct (hex_fixed (S n) v) as [|c t] eqn:E.
  - apply (f_equal (@length _)) in E. rewrite hex_fixed_length in E. discriminate.
  - rewrite <- E, parse_digits_hex_fixed. reflexivity.
Qed.

Lemma BigInt_hex_fixed (n : nat) (v : Z) :
  BigInt (js "0x" ++ hex_fixed (S n) v) = Normal (v mod 16 ^ Z.of_nat (S n)).
Proof.
  unfold BigInt, StringToBigInt.
  rewrite trim_hex_literal by apply hex_fixed_hex.
  change (js "0x" ++ hex_fixed (S n) v) with (48 :: 120 :: hex_fixed (S n) v).
  cbv iota beta. now rewrite parse_number_hex_fixed.
Qed.

End ReadBack.

(** ** More on the classifier *)

Section ClassifierMore.

Lemma string_eqb_spec (a b : jsstring) : reflect (a = b) (string_eqb a b).
Proof.
  destruct (string_eqb a b) eqn:E; constructor.
  - now apply string_eqb_eq.
  - intros H. apply string_eqb_eq in H. congruence.
Qed.

Lemma strict_eq_spec (a b : option jsstring) : reflect (a = b) (strict_eq a b).
Proof.
  destruct a as [x|], b as [y|]; simpl; try (constructor; congruence).
  destruct (string_eqb_spec x y); constructor; congruence.
Qed.

Lemma opt_at_absent_or_empty (q : option jsstring) :
  absent_or_empty q -> truthy (opt_at q (-1)) = false.
Proof. intros [-> | ->]; reflexivity. Qed.

Lemma truthy_opt_at (q : option jsstring) :
  truthy (opt_at q (-1)) = true ->
  exists c t, q = Some (c :: t) /\ opt_at q (-1) = Some [last (c :: t) 0].
Proof.
  destruct q as [[|c t]|]; try discriminate. intros _.
  exists c, t. split; [reflexivity|]. apply String_at_last. discriminate.
Qed.

Lemma deriveTraitRelation_unreadable (mq sq kq : option jsstring) :
  absent_or_empty mq \/ absent_or_empty sq \/ absent_or_empty kq ->
  deriveTraitRelation mq sq kq = mutation.
Proof.
  intros H. unfold deriveTraitRelation.
  destruct H as [H|[H|H]]; rewrite (opt_at_absent_or_empty _ H).
  - reflexivity.
  - now rewrite andb_false_r.
  - now rewrite andb_false_r.
Qed.

End ClassifierMore.

(** X1: a group that is the empty string counts like an absent one: with
    any of the three groups absent or empty the classifier returns
    mutation; and it returns mutation on readable groups only when the three
    last characters are pairwise distinct. *)
Theorem classifier_mutation_iff (mq sq kq : option jsstring) :
  deriveTraitRelation mq sq kq = mutation <->
  (absent_or_empty mq \/ absent_or_empty sq \/ absent_or_empty kq)
  \/ (exists m s k,
        mq = Some m /\ sq = Some s /\ kq = Some k
        /\ last m 0 <> last s 0 /\ last m 0 <> last k 0 /\ last s 0 <> last k 0).
Proof.
  split.
  - intros Hr.
    destruct mq as [[|cm tm]|]; [left; left; now right | | left; left; now left].
    destruct sq as [[|cs ts]|];
      [left; right; left; now right | | left; right; left; now left].
    destruct kq as [[|ck tk]|];
      [left; right; right; now right | | left; right; right; now left].
    right. exists (cm :: tm), (cs :: ts), (ck :: tk).
    repeat split; try reflexivity;
      rewrite deriveTraitRelation_last in Hr by discriminate; cbv zeta in Hr;
      intros E;
      destruct (Z.eqb_spec (last (cm :: tm) 0) (last (cs :: ts) 0));
      destruct (Z.eqb_spec (last (cs :: ts) 0) (last (ck :: tk) 0));
      destruct (Z.eqb_spec (last (ck :: tk) 0) (last (cm :: tm) 0));
      destruct (Z.eqb_spec (last (cm :: tm) 0) (last (ck :: tk) 0));
      simpl in Hr; congruence.
  - intros [H | [m [s [k [-> [-> [-> [N1 [N2 N3]]]]]]]]].
    + now apply deriveTraitRelation_unreadable.
    + destruct m as [|cm tm]; [apply deriveTraitRelation_unreadable; left; now right|].
      destruct s as [|cs ts];
        [apply deriveTraitRelation_unreadable; right; left; now right|].
      destruct k as [|ck tk];
        [apply deriveTraitRelation_unreadable; right; right; now right|].
      rewrite deriveTraitRelation_last by discriminate. cbv zeta.
      destruct (Z.eqb_spec (last (cm :: tm) 0) (last (cs :: ts) 0)); [congruence|].
      destruct (Z.eqb_spec (last (cm :: tm) 0) (last (ck :: tk) 0)); [congruence|].
      destruct (Z.eqb_spec (last (cs :: ts) 0) (last (ck :: tk) 0)); [congruence|].
      reflexivity.
Qed.

(** X2: exchanging matron and sire exchanges the matron-kitten and
    sire-kitten buckets and leaves the other three results unchanged. *)
Theorem classifier_swap_parents (mq sq kq : option jsstring) :
  deriveTraitRelation sq mq kq = swap_parents (deriveTraitRelation mq sq kq).
Proof.
  unfold deriveTraitRelation.
  generalize (opt_at mq (-1)) (opt_at sq (-1)) (opt_at kq (-1)). intros m s k.
  destruct (truthy m), (truthy s), (truthy k); try reflexivity. cbn [andb].
  destruct (strict_eq_spec m s), (strict_eq_spec s m), (strict_eq_spec s k),
    (strict_eq_spec k s), (strict_eq_spec m k), (strict_eq_spec k m);
    try congruence; reflexivity.
Qed.

(** X3: white space around the input is ignored: the decoder gives the same
    result with and without it. *)
Theorem decoder_ignores_whitespace (ws1 ws2 s : jsstring) :
  forallb is_whitespace ws1 = true ->
  forallb is_whitespace ws2 = true ->
  splitGenesToQuads (ws1 ++ s ++ ws2) = splitGenesToQuads s.
Proof.
  intros H1 H2. apply decoder_by_BigInt. unfold BigInt, StringToBigInt.
  now rewrite trim_surrounded.
Qed.

Lemma decoder_ignores_whitespace_witness :
  splitGenesToQuads (js "  " ++ js "4660" ++ [10; 9]) = splitGenesToQuads (js "4660").
Proof.
  apply (decoder_ignores_whitespace (js "  ") [10; 9] (js "4660")); reflexivity.
Defined.

(** X4: a negative input is not rejected.  When its magnitude is below
    16^47 the 48 characters of the groups are zero padding, then the minus
    sign, then the hexadecimal digits of the magnitude: one group holds a
    character that is no hexadecimal digit. *)
Theorem decoder_negative_shows_sign (s : jsstring) (v : Z) :
  BigInt s = Normal v -> v < 0 -> - v < 16 ^ 47 ->
  exists groups,
    splitGenesToQuads s = Normal groups
    /\ length groups = 12%nat
    /\ concat groups =
       repeat 48 (47 - Spec.hex_width (- v))
       ++ 45 :: Spec.hex_fixed (Spec.hex_width (- v)) (- v).
Proof.
  intros Hb Hneg Hsmall. eexists. split; [apply (decoder_parsed s v Hb)|].
  split; [apply partition_length|].
  destruct (Z.ltb_spec v 0) as [_|Hge]; [|lia].
  rewrite partition_concat48.
  - apply window_negative_small; lia.
  - apply rightmost_length.
    change (js "0") with [48].
    apply Nat.le_trans with 64%nat; [lia | apply String_padStart_length].
Qed.

Lemma decoder_negative_shows_sign_witness :
  exists groups,
    splitGenesToQuads (js "-5") = Normal groups
    /\ length groups = 12%nat
    /\ concat groups = js "0000000000000000000000000000000000000000000000-5".
Proof.
  destruct (decoder_negative_shows_sign (js "-5") (-5) eq_refl eq_refl eq_refl)
    as [groups [Hrun [Hlen Hcat]]].
  exists groups. repeat split; [exact Hrun | exact Hlen | exact Hcat].
Defined.

(** X5: when the magnitude of a negative input is 16^47 or more, the minus
    sign falls outside the last 48 characters: the decoder returns the
    groups of the magnitude, as for the positive number. *)
Theorem decoder_negative_loses_sign (s : jsstring) (v : Z) :
  BigInt s = Normal v -> v < 0 -> 16 ^ 47 <= - v ->
  splitGenesToQuads s = Normal (Spec.partition 4 12 (Spec.hex_fixed 48 (- v))).
Proof.
  intros Hb Hneg Hbig. rewrite (decoder_parsed s v Hb).
  destruct (Z.ltb_spec v 0) as [_|Hge]; [|lia].
  now rewrite window_negative_large.
Qed.

Lemma decoder_negative_loses_sign_witness :
  splitGenesToQuads
    (js "-115792089237316195423570985008687907853269984665640564039457584007913129639941")
  = splitGenesToQuads (js "5").
Proof.
  rewrite (decoder_negative_loses_sign
    (js "-115792089237316195423570985008687907853269984665640564039457584007913129639941")
    (-115792089237316195423570985008687907853269984665640564039457584007913129639941)
    eq_refl eq_refl).
  - vm_compute. reflexivity.
  - vm_compute. discriminate.
Defined.

(** X6: whatever literal denotes a non-negative value [v] (decimal with or
    without sign, [0x], [0o], [0b]), the 48 characters of the groups read
    back as a [0x] literal give [v] modulo 2^192, and decoding that literal
    returns the same groups. *)
Theorem decoder_reads_back (s : jsstring) (v : Z) :
  BigInt s = Normal v -> 0 <= v ->
  exists groups,
    splitGenesToQuads s = Normal groups
    /\ BigInt (js "0x" ++ concat groups) = Normal (v mod 2 ^ 192)
    /\ splitGenesToQuads (js "0x" ++ concat groups) = Normal groups.
Proof.
  intros Hb Hv. eexists. split; [apply (decoder_nonneg s v Hb Hv)|].
  rewrite partition_concat48 by apply hex_fixed_length.
  pose proof (BigInt_hex_fixed 47 v) as Hback.
  change (16 ^ Z.of_nat 48) with (2 ^ 192) in Hback.
  split; [exact Hback|].
  rewrite (decoder_nonneg _ _ Hback) by (apply Z.mod_pos_bound; reflexivity).
  do 2 f_equal. apply hex_fixed_congruent.
  change (16 ^ Z.of_nat 48) with (2 ^ 192). apply Z.mod_mod. discriminate.
Qed.

Lemma decoder_reads_back_witness :
  exists groups,
    splitGenesToQuads (js "0x1f") = Normal groups
    /\ BigInt (js "0x" ++ concat groups) = Normal (31 mod 2 ^ 192)
    /\ splitGenesToQuads (js "0x" ++ concat groups) = Normal groups.
Proof. apply (decoder_reads_back (js "0x1f") 31); [reflexivity | lia]. Defined.

(** ** Colours, boxes and image addresses *)

(** X7: distinct relations get distinct background classes. *)
Theorem relationBgClass_injective (a b : TraitRelation) :
  relationBgClass a = relationBgClass b -> a = b.
Proof.
  destruct a, b; intros H; try reflexivity; vm_compute in H; discriminate H.
Qed.

Lemma relationBgClass_injective_witness : mutation = mutation.
Proof. apply (relationBgClass_injective mutation mutation). reflexivity. Defined.

(** X8: both legends, the [Legend] component and the one written out in
    [Home], list the class of every relation, in the order allShare,
    parentsOnlyShare, matronKittenShare, sireKittenShare, mutation, and no
    other class. *)
Theorem legends_match_relationBgClass :
  map snd Legend_items =
    map relationBgClass
      [allShare; parentsOnlyShare; matronKittenShare; sireKittenShare; mutation]
  /\ map snd Home_legend_items = map snd Legend_items
  /\ forall r, In (relationBgClass r) (map snd Legend_items).
Proof.
  split; [reflexivity|]. split; [reflexivity|].
  intros r. destruct r; simpl; tauto.
Qed.

(** X9: [Quad] always renders four boxes, of which only the fourth takes
    the dominant style; for an absent or empty group all four are blank. *)
Theorem Quad_four_boxes (quad : option jsstring) :
  map Cell.isDominant (Quad quad) = [false; false; false; true]
  /\ (absent_or_empty quad -> map Cell.c (Quad quad) = [[]; []; []; []]).
Proof.
  split; [reflexivity|]. intros [-> | ->]; reflexivity.
Qed.

(** X10: on a group of four characters, as every decoded group is, the
    boxes show the four characters in order, and the box in the dominant
    style shows the character the classifier reads with [at(-1)]. *)
Theorem Quad_dominant_is_last (quad : jsstring) :
  length quad = 4%nat ->
  map Cell.c (Quad (Some quad)) = String_split quad
  /\ option_map Cell.c (nth_error (Quad (Some quad)) 3) = String_at quad (-1).
Proof.
  intros H.
  do 4 (destruct quad as [|? quad]; [discriminate H|]).
  destruct quad; [|discriminate H].
  split; reflexivity.
Qed.

Lemma Quad_dominant_is_last_witness :
  map Cell.c (Quad (Some (js "4ce4"))) = String_split (js "4ce4")
  /\ option_map Cell.c (nth_error (Quad (Some (js "4ce4"))) 3)
     = String_at (js "4ce4") (-1).
Proof. apply (Quad_dominant_is_last (js "4ce4")). reflexivity. Defined.

(** X11: [TraitRow] marks the same boxes as [Quad] on groups of four
    characters, and renders no box for an absent group. *)
Theorem TraitRow_agrees_with_Quad (matron sire kitten : option jsstring) :
  (forall g, In g [matron; sire; kitten] ->
     g = None \/ exists q, g = Some q /\ length q = 4%nat) ->
  TraitRow matron sire kitten =
    map (option_map (fun q => Quad (Some q))) [matron; sire; kitten].
Proof.
  intros H.
  assert (G : forall g, (g = None \/ exists q, g = Some q /\ length q = 4%nat) ->
            option_map (fun s =>
              Array_map (fun c idx => Cell.make c (Nat.eqb idx 3)) (String_split s)) g
            = option_map (fun q => Quad (Some q)) g).
  { intros g [-> | [q [-> Hq]]]; [reflexivity|].
    do 4 (destruct q as [|? q]; [discriminate Hq|]).
    destruct q; [|discriminate Hq]. reflexivity. }
  unfold TraitRow, Array_map. cbn [Array_map_from map].
  rewrite !G; [reflexivity | | |]; apply H; simpl; tauto.
Qed.

Lemma TraitRow_agrees_with_Quad_witness :
  TraitRow (Some (js "1235")) None (Some (js "9995")) =
    map (option_map (fun q => Quad (Some q))) [Some (js "1235"); None; Some (js "9995")].
Proof.
  apply (TraitRow_agrees_with_Quad (Some (js "1235")) None (Some (js "9995"))).
  intros g [<- | [<- | [<- | []]]].
  - right. exists (js "1235"). split; reflexivity.
  - left. reflexivity.
  - right. exists (js "9995"). split; reflexivity.
Defined.

(** X13: different ids get different image addresses. *)
Theorem kittyImageUrl_injective (a b : jsstring) :
  a <> [] -> b <> [] ->
  kittyImageUrl (Some a) = kittyImageUrl (Some b) -> a = b.
Proof.
  intros Ha Hb H.
  destruct a as [|ca ta]; [congruence|]. destruct b as [|cb tb]; [congruence|].
  unfold kittyImageUrl in H. cbn [truthy negb nullish] in H.
  assert (E : forall x y : jsstring, Some x = Some y -> x = y)
    by (intros x y E; now injection E).
  apply E, app_inv_head, app_inv_tail in H. exact H.
Qed.

Lemma kittyImageUrl_injective_witness : js "881847" = js "881847".
Proof.
  apply (kittyImageUrl_injective (js "881847") (js "881847"));
    (discriminate || reflexivity).
Defined.

(** X14: every address [kittyImageUrl] builds starts with the protocol and
    host name of a remote pattern of the Next configuration. *)
Theorem kittyImageUrl_allowed_host (id : option jsstring) (url : jsstring) :
  kittyImageUrl id = Some url ->
  exists p rest,
    In p nextConfig_remotePatterns
    /\ url = RemotePattern.protocol p ++ js "://" ++ RemotePattern.hostname p
             ++ js "/" ++ rest.
Proof.
  intros H. destruct id as [[|c t]|]; try discriminate H.
  injection H as <-.
  exists (RemotePattern.make (js "https") (js "img.cryptokitties.co")).
  exists (js "0x06012c8cf97bead5deae237070f9587f8e7a266d/" ++ (c :: t) ++ js ".svg").
  split; [now left | reflexivity].
Qed.

Lemma kittyImageUrl_allowed_host_witness :
  exists p rest,
    In p nextConfig_remotePatterns
    /\ js "https://img.cryptokitties.co/0x06012c8cf97bead5deae237070f9587f8e7a266d/881847.svg"
       = RemotePattern.protocol p ++ js "://" ++ RemotePattern.hostname p
         ++ js "/" ++ rest.
Proof.
  apply (kittyImageUrl_allowed_host (Some (js "881847"))). reflexivity.
Defined.

(** ** The trait table of [Home] *)

Section TraitTable.

Import Spec.

Lemma Array_map_from_map {A B C : Type} (f : A -> nat -> B) (g : B -> C) (h : A -> C)
  (a : list A) :
  (forall x idx, g (f x idx) = h x) ->
  forall idx, map g (Array_map_from f idx a) = map h a.
Proof.
  intros Hg. induction a as [|x t IH]; intros idx; [reflexivity|].
  simpl. now rewrite Hg, IH.
Qed.

Lemma Array_map_from_Forall {A B : Type} (f : A -> nat -> B) (P : B -> Prop)
  (a : list A) :
  (forall x idx, P (f x idx)) -> forall idx, Forall P (Array_map_from f idx a).
Proof.
  intros Hf. induction a as [|x t IH]; intros idx; constructor; auto.
Qed.

Lemma Array_map_from_nth_error {A B : Type} (f : A -> nat -> B) (a : list A) :
  forall idx n,
    nth_error (Array_map_from f idx a) n =
    option_map (fun x => f x (idx + n)%nat) (nth_error a n).
Proof.
  induction a as [|x t IH]; intros idx [|n]; try reflexivity.
  - simpl. now rewrite Nat.add_0_r.
  - simpl. rewrite IH. now rewrite Nat.add_succ_r.
Qed.

Lemma Array_map_from_length {A B : Type} (f : A -> nat -> B) (a : list A) :
  forall idx, length (Array_map_from f idx a) = length a.
Proof. induction a as [|x t IH]; intros idx; simpl; [reflexivity | now rewrite IH]. Qed.

Lemma TraitRelation_eqb_eq (a b : TraitRelation) :
  TraitRelation_eqb a b = true <-> a = b.
Proof. destruct a, b; simpl; split; congruence. Qed.

Lemma hasAnyMutation_scan (pre rows : list Trait.t) :
  Array_some_from (fun _ idx =>
    match nth_error (pre ++ rows) idx with
    | None => None
    | Some t =>
        let relation :=
          deriveTraitRelation (Trait.matron t) (Trait.sire t) (Trait.kitten t) in
        Some (TraitRelation_eqb relation mutation)
    end) (length pre) rows
  = Some (existsb row_is_mutation rows).
Proof.
  revert pre. induction rows as [|x t IH]; intros pre; [reflexivity|].
  cbn [Array_some_from existsb].
  rewrite nth_error_app2, Nat.sub_diag by lia. cbn [nth_error].
  cbv zeta. fold (row_is_mutation x).
  destruct (row_is_mutation x); [reflexivity|].
  specialize (IH (pre ++ [x])).
  rewrite <- app_assoc, length_app, Nat.add_1_r in IH. exact IH.
Qed.

(** [hasAnyMutation] never meets an absent row: it is the disjunction over
    the rows. *)
Lemma hasAnyMutation_existsb (rows : list Trait.t) :
  hasAnyMutation rows = Some (existsb row_is_mutation rows).
Proof. exact (hasAnyMutation_scan [] rows). Qed.

Lemma decoder_cases (s : jsstring) :
  (exists v, BigInt s = Normal v /\ exists w, length w = 48%nat
             /\ splitGenesToQuads s = Normal (partition 4 12 w))
  \/ (exists e, BigInt s = Throw e /\ splitGenesToQuads s = Normal []).
Proof.
  destruct (BigInt s) as [v|e] eqn:Hb.
  - left. exists v. split; [reflexivity|]. eexists. split; [|apply (decoder_parsed s v Hb)].
    apply rightmost_length. change (js "0") with [48].
    apply Nat.le_trans with 64%nat; [lia | apply String_padStart_length].
  - right. exists e. split; [reflexivity | apply (decoder_rejected s e Hb)].
Qed.

Lemma decoder_normal (s : jsstring) : exists groups, splitGenesToQuads s = Normal groups.
Proof.
  destruct (decoder_cases s) as [[v [_ [w [_ H]]]] | [e [_ H]]]; eauto.
Qed.

End TraitTable.

Section TraitRows.

Import Spec.

Lemma or_else_nonempty (g : jsstring) : g <> [] -> or_else (Some g) (js "") = g.
Proof. destruct g; [congruence | reflexivity]. Qed.

Lemma or_else_no_genes (b : option Birth.t) :
  no_genes b -> or_else (option_map Birth.genes b) (js "") = [].
Proof. intros [-> | [r [-> Hr]]]; [reflexivity|]. simpl. now rewrite Hr. Qed.

Lemma BigInt_rejects_nonempty (g : jsstring) (e : js_error) :
  BigInt g = Throw e -> g <> [].
Proof. intros H ->. discriminate H. Qed.

Lemma valid_decimal_nonempty (g : jsstring) : valid_decimal g = true -> g <> [].
Proof. intros H ->. discriminate H. Qed.

(** The twelve rows, once the three decodings are known. *)
Lemma traits_rows_of (matron sire kitten : option Birth.t) (m s k : list jsstring) :
  splitGenesToQuads (or_else (option_map Birth.genes matron) (js "")) = Normal m ->
  splitGenesToQuads (or_else (option_map Birth.genes sire) (js "")) = Normal s ->
  splitGenesToQuads (or_else (option_map Birth.genes kitten) (js "")) = Normal k ->
  traits matron sire kitten =
  Normal (Array_map (fun label idx =>
            Trait.make label (nth_error m idx) (nth_error s idx) (nth_error k idx))
            labels).
Proof. intros Hm Hs Hk. unfold traits. now rewrite Hm, Hs, Hk. Qed.

Lemma existsb_row_iff (rows : list Trait.t) :
  existsb row_is_mutation rows = true <->
  exists t, In t rows
    /\ deriveTraitRelation (Trait.matron t) (Trait.sire t) (Trait.kitten t) = mutation.
Proof.
  rewrite existsb_exists. unfold row_is_mutation.
  split; intros [t [Hin Ht]]; exists t; (split; [exact Hin|]);
    now apply TraitRelation_eqb_eq.
Qed.

Lemma digit_char_eqb (a b : Z) :
  0 <= a < 16 -> 0 <= b < 16 -> (digit_char a =? digit_char b) = (a =? b).
Proof.
  intros Ha Hb. unfold digit_char.
  destruct (Z.ltb_spec a 10), (Z.ltb_spec b 10);
    destruct (Z.eqb_spec a b); subst;
    try (exfalso; lia); try (apply Z.eqb_refl); apply Z.eqb_neq; lia.
Qed.

Lemma hex_fixed_48 (v : Z) :
  hex_fixed 48 v = map (hex_digit_at v) (rev (seq 0 48)).
Proof. reflexivity. Qed.

(** Group [idx] of the window ends with the digit at position
    [4 * (11 - idx)] of the value. *)
Lemma group_dominant (v : Z) (idx : nat) :
  (idx < 12)%nat ->
  exists g,
    nth_error (partition 4 12 (hex_fixed 48 v)) idx = Some g
    /\ g <> []
    /\ last g 0 = hex_digit_at v (4 * (11 - idx)).
Proof.
  intros Hidx. rewrite hex_fixed_48.
  do 12 (destruct idx as [|idx];
         [eexists; split; [reflexivity | split; [discriminate | reflexivity]]|]).
  lia.
Qed.

(** The relation of a row of three decimal genomes, on the digits of their
    values. *)
Lemma traits_decimal_row (matron sire kitten : Birth.t) (idx : nat) :
  valid_decimal (Birth.genes matron) = true ->
  valid_decimal (Birth.genes sire) = true ->
  valid_decimal (Birth.genes kitten) = true ->
  (idx < 12)%nat ->
  let m := digit_at (decimal_value (Birth.genes matron)) (4 * (11 - idx)) in
  let s := digit_at (decimal_value (Birth.genes sire)) (4 * (11 - idx)) in
  let k := digit_at (decimal_value (Birth.genes kitten)) (4 * (11 - idx)) in
  exists rows t,
    traits (Some matron) (Some sire) (Some kitten) = Normal rows
    /\ length rows = 12%nat
    /\ nth_error rows idx = Some t
    /\ deriveTraitRelation (Trait.matron t) (Trait.sire t) (Trait.kitten t) =
       if (m =? s) && (s =? k) then allShare
       else if (m =? s) && negb (k =? m) then parentsOnlyShare
       else if (m =? k) && negb (s =? k) then matronKittenShare
       else if (s =? k) && negb (m =? k) then sireKittenShare
       else mutation.
Proof.
  intros Hm Hs Hk Hidx m s k.
  destruct (decoder_decimal _ Hm) as [Rm Sm].
  destruct (decoder_decimal _ Hs) as [Rs Ss].
  destruct (decoder_decimal _ Hk) as [Rk Sk].
  rewrite Sm in Rm. rewrite Ss in Rs. rewrite Sk in Rk.
  destruct (group_dominant (decimal_value (Birth.genes matron)) idx Hidx)
    as [gm [Em [Nm Lm]]].
  destruct (group_dominant (decimal_value (Birth.genes sire)) idx Hidx)
    as [gs [Es [Ns Ls]]].
  destruct (group_dominant (decimal_value (Birth.genes kitten)) idx Hidx)
    as [gk [Ek [Nk Lk]]].
  assert (Hl : exists l, nth_error labels idx = Some l).
  { destruct (nth_error labels idx) eqn:E; [eauto|].
    apply nth_error_None in E. change (length labels) with 12%nat in E. lia. }
  destruct Hl as [l Hl].
  eexists. eexists. split; [|split; [|split]].
  - apply traits_rows_of; cbn [option_map];
      rewrite or_else_nonempty by (now apply valid_decimal_nonempty); eassumption.
  - unfold Array_map. now rewrite Array_map_from_length.
  - unfold Array_map. rewrite Array_map_from_nth_error, Hl. cbn [option_map Nat.add].
    unfold jsstring, code_unit in *. rewrite Em, Es, Ek. reflexivity.
  - cbn [Trait.matron Trait.sire Trait.kitten].
    etransitivity; [exact (deriveTraitRelation_last gm gs gk Nm Ns Nk)|].
    cbv zeta. unfold jsstring, code_unit in *.
    rewrite Lm, Ls, Lk. unfold hex_digit_at.
    rewrite !digit_char_eqb by apply digit_at_range. reflexivity.
Qed.

Lemma relation_chain_mutation (m s k : Z) :
  (if (m =? s) && (s =? k) then allShare
   else if (m =? s) && negb (k =? m) then parentsOnlyShare
   else if (m =? k) && negb (s =? k) then matronKittenShare
   else if (s =? k) && negb (m =? k) then sireKittenShare
   else mutation) = mutation
  <-> m <> s /\ m <> k /\ s <> k.
Proof.
  destruct (Z.eqb_spec m s), (Z.eqb_spec s k), (Z.eqb_spec k m), (Z.eqb_spec m k);
    simpl; (split; [intros H; try discriminate H; lia
                   | intros H; try reflexivity; exfalso; lia]).
Qed.

End TraitRows.

(** X15: whatever the three records are, [traits] is built without an
    exception and has the twelve labels in order, one row each; on those rows
    [hasAnyMutation] meets no absent row and is true exactly when some row is
    classified mutation. *)
Theorem traits_twelve_rows (matron sire kitten : option Birth.t) :
  exists rows b,
    traits matron sire kitten = Normal rows
    /\ map Trait.label rows = labels
    /\ hasAnyMutation rows = Some b
    /\ (b = true <->
        exists t, In t rows
          /\ deriveTraitRelation (Trait.matron t) (Trait.sire t) (Trait.kitten t)
             = mutation).
Proof.
  destruct (decoder_normal (or_else (option_map Birth.genes matron) (js ""))) as [m Hm].
  destruct (decoder_normal (or_else (option_map Birth.genes sire) (js ""))) as [s Hs].
  destruct (decoder_normal (or_else (option_map Birth.genes kitten) (js ""))) as [k Hk].
  eexists. eexists. split; [apply (traits_rows_of _ _ _ m s k Hm Hs Hk)|].
  split; [|split; [apply hasAnyMutation_existsb | apply existsb_row_iff]].
  unfold Array_map. rewrite (Array_map_from_map _ _ (fun x => x)); [apply map_id|].
  reflexivity.
Qed.

(** X16: while a record is not loaded, or has an empty [genes] string, its
    genome decodes as zero: with all three so, every row holds the group
    [0000] three times and is classified allShare, and [hasAnyMutation] is
    false. *)
Theorem traits_without_genes (matron sire kitten : option Birth.t) :
  no_genes matron -> no_genes sire -> no_genes kitten ->
  exists rows,
    traits matron sire kitten = Normal rows
    /\ rows = map (fun l => Trait.make l (Some (js "0000")) (Some (js "0000"))
                              (Some (js "0000"))) labels
    /\ Forall (fun t =>
         deriveTraitRelation (Trait.matron t) (Trait.sire t) (Trait.kitten t)
         = allShare) rows
    /\ hasAnyMutation rows = Some false.
Proof.
  intros Hm Hs Hk. eexists. split; [|split; [reflexivity|split]].
  - unfold traits. rewrite !or_else_no_genes by assumption.
    vm_compute. reflexivity.
  - repeat constructor.
  - reflexivity.
Qed.

Lemma traits_without_genes_witness :
  exists rows,
    traits None None None = Normal rows
    /\ rows = map (fun l => Trait.make l (Some (js "0000")) (Some (js "0000"))
                              (Some (js "0000"))) labels
    /\ Forall (fun t =>
         deriveTraitRelation (Trait.matron t) (Trait.sire t) (Trait.kitten t)
         = allShare) rows
    /\ hasAnyMutation rows = Some false.
Proof. apply (traits_without_genes None None None); left; reflexivity. Defined.

(** X17: when the genes string of one of the three records is rejected by
    [BigInt], every one of the twelve rows is classified mutation and
    [hasAnyMutation] is true, whatever the other two genomes are. *)
Theorem traits_rejected_genes (matron sire kitten : option Birth.t)
  (r : Birth.t) (e : js_error) :
  matron = Some r \/ sire = Some r \/ kitten = Some r ->
  BigInt (Birth.genes r) = Throw e ->
  exists rows,
    traits matron sire kitten = Normal rows
    /\ length rows = 12%nat
    /\ Forall (fun t =>
         deriveTraitRelation (Trait.matron t) (Trait.sire t) (Trait.kitten t)
         = mutation) rows
    /\ hasAnyMutation rows = Some true.
Proof.
  intros Hr He.
  pose proof (BigInt_rejects_nonempty _ _ He) as Hne.
  pose proof (decoder_rejected _ _ He) as Hnil.
  destruct (decoder_normal (or_else (option_map Birth.genes matron) (js ""))) as [m Hm].
  destruct (decoder_normal (or_else (option_map Birth.genes sire) (js ""))) as [s Hs].
  destruct (decoder_normal (or_else (option_map Birth.genes kitten) (js ""))) as [k Hk].
  assert (Hempty : m = [] \/ s = [] \/ k = []).
  { destruct Hr as [->|[->| ->]]; cbn [option_map] in *;
      rewrite or_else_nonempty in * by exact Hne.
    - left. congruence.
    - right; left. congruence.
    - right; right. congruence. }
  assert (Hrow : forall idx,
            deriveTraitRelation (nth_error m idx) (nth_error s idx) (nth_error k idx)
            = mutation).
  { intros idx. apply deriveTraitRelation_unreadable.
    destruct Hempty as [->|[->| ->]].
    - left. left. now destruct idx.
    - right; left. left. now destruct idx.
    - right; right. left. now destruct idx. }
  eexists. split; [apply (traits_rows_of _ _ _ m s k Hm Hs Hk)|].
  split; [|split].
  - unfold Array_map. now rewrite Array_map_from_length.
  - apply Array_map_from_Forall. intros l idx. apply (Hrow idx).
  - rewrite hasAnyMutation_existsb. f_equal.
    apply existsb_row_iff. eexists. split; [left; reflexivity|].
    apply (Hrow 0%nat).
Qed.

Lemma traits_rejected_genes_witness :
  exists rows,
    traits (Some (Birth.make [] [] [] [] [] (js "4660")))
           (Some (Birth.make [] [] [] [] [] (js "12.5")))
           (Some (Birth.make [] [] [] [] [] (js "4660"))) = Normal rows
    /\ length rows = 12%nat
    /\ Forall (fun t =>
         deriveTraitRelation (Trait.matron t) (Trait.sire t) (Trait.kitten t)
         = mutation) rows
    /\ hasAnyMutation rows = Some true.
Proof.
  apply (traits_rejected_genes _ _ _ (Birth.make [] [] [] [] [] (js "12.5")) SyntaxError).
  - right; left; reflexivity.
  - reflexivity.
Defined.

(** X18: for three records with valid decimal genomes, row [idx] of the
    table is classified by the hexadecimal digit at position
    [4 * (11 - idx)] of each value (bits [16 * (11 - idx)] and the three
    above): the decision of the classifier, taken on those three digits. *)
Theorem trait_relation_by_digit (matron sire kitten : Birth.t) (idx : nat) :
  Spec.valid_decimal (Birth.genes matron) = true ->
  Spec.valid_decimal (Birth.genes sire) = true ->
  Spec.valid_decimal (Birth.genes kitten) = true ->
  (idx < 12)%nat ->
  let m := (Spec.decimal_value (Birth.genes matron) / 16 ^ Z.of_nat (4 * (11 - idx))) mod 16 in
  let s := (Spec.decimal_value (Birth.genes sire) / 16 ^ Z.of_nat (4 * (11 - idx))) mod 16 in
  let k := (Spec.decimal_value (Birth.genes kitten) / 16 ^ Z.of_nat (4 * (11 - idx))) mod 16 in
  exists rows t,
    traits (Some matron) (Some sire) (Some kitten) = Normal rows
    /\ nth_error rows idx = Some t
    /\ deriveTraitRelation (Trait.matron t) (Trait.sire t) (Trait.kitten t) =
       if (m =? s) && (s =? k) then allShare
       else if (m =? s) && negb (k =? m) then parentsOnlyShare
       else if (m =? k) && negb (s =? k) then matronKittenShare
       else if (s =? k) && negb (m =? k) then sireKittenShare
       else mutation.
Proof.
  intros Hm Hs Hk Hidx m s k.
  destruct (traits_decimal_row matron sire kitten idx Hm Hs Hk Hidx)
    as [rows [t [Hrun [_ [Hnth Hrel]]]]].
  exists rows, t. repeat split; assumption.
Qed.

Lemma trait_relation_by_digit_witness :
  exists rows t,
    traits (Some (Birth.make [] [] [] [] [] (js "4660")))
           (Some (Birth.make [] [] [] [] [] (js "4661")))
           (Some (Birth.make [] [] [] [] [] (js "21")))
      = Normal rows
    /\ nth_error rows 11 = Some t
    /\ deriveTraitRelation (Trait.matron t) (Trait.sire t) (Trait.kitten t)
       = sireKittenShare.
Proof.
  exact (trait_relation_by_digit
           (Birth.make [] [] [] [] [] (js "4660"))
           (Birth.make [] [] [] [] [] (js "4661"))
           (Birth.make [] [] [] [] [] (js "21")) 11 eq_refl eq_refl eq_refl
           (le_n 12)).
Defined.

(** X19: for three records with valid decimal genomes, [hasAnyMutation] is
    true exactly when at some of the twelve positions [4 * (11 - idx)] the
    hexadecimal digits of the three values are pairwise distinct. *)
Theorem hasAnyMutation_by_digit (matron sire kitten : Birth.t) :
  Spec.valid_decimal (Birth.genes matron) = true ->
  Spec.valid_decimal (Birth.genes sire) = true ->
  Spec.valid_decimal (Birth.genes kitten) = true ->
  exists rows,
    traits (Some matron) (Some sire) (Some kitten) = Normal rows
    /\ (hasAnyMutation rows = Some true <->
        exists idx, (idx < 12)%nat
          /\ let m := Spec.digit_at (Spec.decimal_value (Birth.genes matron)) (4 * (11 - idx)) in
             let s := Spec.digit_at (Spec.decimal_value (Birth.genes sire)) (4 * (11 - idx)) in
             let k := Spec.digit_at (Spec.decimal_value (Birth.genes kitten)) (4 * (11 - idx)) in
             m <> s /\ m <> k /\ s <> k).
Proof.
  intros Hm Hs Hk.
  destruct (traits_decimal_row matron sire kitten 0 Hm Hs Hk ltac:(lia))
    as [rows [_ [Hrun [Hlen _]]]].
  exists rows. split; [exact Hrun|].
  rewrite hasAnyMutation_existsb.
  assert (Hrow : forall idx t, nth_error rows idx = Some t ->
            (idx < 12)%nat /\
            let m := Spec.digit_at (Spec.decimal_value (Birth.genes matron)) (4 * (11 - idx)) in
            let s := Spec.digit_at (Spec.decimal_value (Birth.genes sire)) (4 * (11 - idx)) in
            let k := Spec.digit_at (Spec.decimal_value (Birth.genes kitten)) (4 * (11 - idx)) in
            (deriveTraitRelation (Trait.matron t) (Trait.sire t) (Trait.kitten t)
             = mutation <-> m <> s /\ m <> k /\ s <> k)).
  { intros idx t Ht.
    assert (Hidx : (idx < 12)%nat)
      by (rewrite <- Hlen; apply nth_error_Some; congruence).
    split; [exact Hidx|].
    destruct (traits_decimal_row matron sire kitten idx Hm Hs Hk Hidx)
      as [rows' [t' [Hrun' [_ [Hnth Hrel]]]]].
    assert (rows' = rows) by congruence. subst rows'.
    assert (t' = t) by congruence. subst t'.
    cbv zeta in *. rewrite Hrel. apply relation_chain_mutation. }
  split.
  - intros H. injection H as H. apply existsb_row_iff in H as [t [Hin Ht]].
    apply In_nth_error in Hin as [idx Hnth].
    destruct (Hrow idx t Hnth) as [Hidx Hiff].
    exists idx. split; [exact Hidx|]. now apply Hiff.
  - intros [idx [Hidx Hd]]. f_equal. apply existsb_row_iff.
    destruct (nth_error rows idx) as [t|] eqn:Hnth.
    + exists t. split; [now apply nth_error_In with idx|].
      destruct (Hrow idx t Hnth) as [_ Hiff]. now apply Hiff.
    + apply nth_error_None in Hnth. lia.
Qed.

Lemma hasAnyMutation_by_digit_witness :
  exists rows,
    traits (Some (Birth.make [] [] [] [] [] (js "1")))
           (Some (Birth.make [] [] [] [] [] (js "2")))
           (Some (Birth.make [] [] [] [] [] (js "3"))) = Normal rows
    /\ hasAnyMutation rows = Some true.
Proof.
  destruct (hasAnyMutation_by_digit
              (Birth.make [] [] [] [] [] (js "1"))
              (Birth.make [] [] [] [] [] (js "2"))
              (Birth.make [] [] [] [] [] (js "3")) eq_refl eq_refl eq_refl)
    as [rows [Hrun Hiff]].
  exists rows. split; [exact Hrun|].
  apply Hiff. exists 11%nat. split; [lia|].
  vm_compute. repeat split; discriminate.
Defined.

(** X20: a genome strip has one box per group it is given, whatever the
    three group arrays are; and when one of the three is empty, as after a
    rejected genome, every box has the background of mutation. *)
Theorem GenomeStrip_failed_decode (groups matronGroups sireGroups kittenGroups : list jsstring) :
  length (GenomeStrip groups matronGroups sireGroups kittenGroups) = length groups
  /\ (matronGroups = [] \/ sireGroups = [] \/ kittenGroups = [] ->
      Forall (fun cell => StripCell.bg cell = relationBgClass mutation)
        (GenomeStrip groups matronGroups sireGroups kittenGroups)).
Proof.
  unfold GenomeStrip, Array_map. split.
  - apply Array_map_from_length.
  - intros H. apply Array_map_from_Forall. intros quad idx. cbv zeta.
    cbn [StripCell.bg]. f_equal. apply deriveTraitRelation_unreadable.
    destruct H as [->|[->| ->]].
    + left. left. now destruct idx.
    + right; left. left. now destruct idx.
    + right; right. left. now destruct idx.
Qed.

Lemma GenomeStrip_failed_decode_witness :
  length (GenomeStrip [js "0001"; js "0002"] [js "0001"; js "0002"] []
            [js "0001"; js "0002"]) = 2%nat
  /\ Forall (fun cell => StripCell.bg cell = relationBgClass mutation)
       (GenomeStrip [js "0001"; js "0002"] [js "0001"; js "0002"] []
          [js "0001"; js "0002"]).
Proof.
  destruct (GenomeStrip_failed_decode [js "0001"; js "0002"] [js "0001"; js "0002"] []
              [js "0001"; js "0002"]) as [Hlen Hall].
  split; [exact Hlen|]. apply Hall. right; left; reflexivity.
Defined.

(** ** The decoder and the heap *)

Section HeapRuns.

Import Heap.

Lemma deref_alloc_new (h : heap) (a : list jsstring) : deref (h ++ [a]) (length h) = a.
Proof. unfold deref. apply nth_middle. Qed.

Lemma deref_alloc_old (h : heap) (a : list jsstring) (l : loc) :
  (l < length h)%nat -> deref (h ++ [a]) l = deref h l.
Proof. intros H. unfold deref. now apply app_nth1. Qed.

Lemma update_length (h : heap) :
  forall l a, length (update h l a) = length h.
Proof.
  induction h as [|x t IH]; intros [|l] a; simpl; try reflexivity.
  now rewrite IH.
Qed.

Lemma deref_update_same (h : heap) :
  forall l a, (l < length h)%nat -> deref (update h l a) l = a.
Proof.
  induction h as [|x t IH]; intros [|l] a H; simpl in *; try lia; try reflexivity.
  apply IH. lia.
Qed.

Lemma deref_update_other (h : heap) :
  forall l l' a, l' <> l -> deref (update h l a) l' = deref h l'.
Proof.
  induction h as [|x t IH]; intros [|l] [|l'] a H; simpl; try reflexivity;
    try congruence.
  apply IH. congruence.
Qed.

Lemma bind_normal {A B : Type} (m : M A) (k : A -> M B) (h h' : heap) (a : A) :
  m h = (h', Normal a) -> bind m k h = k a h'.
Proof. intros H. unfold bind. now rewrite H. Qed.

(** One run of the loop body: a new array for the slice, and the group
    put at the front of [groups]. *)
Lemma quads_body_run (last48 groups : loc) (i : Z) (h : heap) :
  (groups < length h)%nat ->
  let elems := deref h last48 in
  let start := Z.of_nat (length elems) - (i + 1) * 4 in
  bind (length_of last48) (fun len =>
    let start := len - (i + 1) * 4 in
    bind (slice last48 start (Some (start + 4))) (fun part =>
    bind (join part) (fun quad => unshift groups quad))) h
  = (update (h ++ [Array_slice elems start (Some (start + 4))]) groups
       (Array_unshift (Array_join (Array_slice elems start (Some (start + 4))))
          (deref h groups)),
     Normal tt).
Proof.
  intros Hg elems start.
  cbv beta iota zeta delta [bind length_of slice join unshift get put alloc ret].
  fold elems. fold start.
  rewrite deref_alloc_new, (deref_alloc_old h _ groups Hg). reflexivity.
Qed.

(** The loop over the heap computes in [groups] what the loop over values
    computes, keeps [last48], and writes to no other array that was there. *)
Lemma quads_loop_run (last48 groups : loc) (count : nat) :
  forall (i : Z) (h : heap),
    (last48 < length h)%nat -> (groups < length h)%nat -> last48 <> groups ->
    exists h',
      for_from count i (fun i =>
        bind (length_of last48) (fun len =>
          let start := len - (i + 1) * 4 in
          bind (slice last48 start (Some (start + 4))) (fun part =>
          bind (join part) (fun quad => unshift groups quad)))) h
      = (h', Normal tt)
      /\ deref h' groups =
         JS.for_from count i (fun i acc =>
           let start := Z.of_nat (length (deref h last48)) - (i + 1) * 4 in
           Array_unshift
             (Array_join (Array_slice (deref h last48) start (Some (start + 4)))) acc)
           (deref h groups)
      /\ (length h <= length h')%nat
      /\ (forall l, (l < length h)%nat -> l <> groups -> deref h' l = deref h l).
Proof.
  induction count as [|count IH]; intros i h Hl Hg Hne.
  - exists h. repeat split; auto.
  - cbn [for_from].
    rewrite (bind_normal _ _ h _ tt (quads_body_run last48 groups i h Hg)).
    set (quad := Array_join _).
    set (h1 := update _ groups _).
    assert (Hlen1 : length h1 = S (length h))
      by (unfold h1; rewrite update_length, length_app; simpl; lia).
    assert (Hold : forall l, (l < length h)%nat -> l <> groups -> deref h1 l = deref h l).
    { intros l Hlt Hd. unfold h1.
      rewrite deref_update_other by exact Hd. now apply deref_alloc_old. }
    assert (Hgr : deref h1 groups = Array_unshift quad (deref h groups)).
    { unfold h1. apply deref_update_same. rewrite length_app. simpl. lia. }
    destruct (IH (i + 1) h1) as [h' [Hrun [Hres [Hle Hframe]]]]; try lia.
    exists h'. split; [exact Hrun|].
    rewrite (Hold last48 Hl Hne), Hgr in Hres.
    split; [exact Hres|]. split; [lia|].
    intros l Hlt Hd. rewrite Hframe by lia. now apply Hold.
Qed.

(** A run from any heap: it ends normally with the address of a new array
    that holds the groups of the decoder, and every array that was in the
    heap is as it was. *)
Lemma splitGenesToQuads_heap_run (s : jsstring) (h : heap) :
  exists h' a groups,
    splitGenesToQuads_heap s h = (h', Normal a)
    /\ splitGenesToQuads s = Normal groups
    /\ deref h' a = groups
    /\ (length h <= a < length h')%nat
    /\ (forall l, (l < length h)%nat -> deref h' l = deref h l).
Proof.
  destruct (BigInt s) as [v|e] eqn:Hb; unfold splitGenesToQuads_heap, try_catch.
  - unfold bind at 1. unfold lift at 1. rewrite Hb.
    unfold bind at 1. unfold lift at 1. rewrite BigInt_toString_16.
    set (digits := if v <? 0 then _ else _).
    set (hex := String_padStart digits 64 (js "0")).
    unfold bind at 1. unfold alloc at 1.
    unfold bind at 1. unfold slice at 1, bind at 1, get at 1, alloc at 1.
    rewrite deref_alloc_new.
    set (last48 := Array_slice (String_split hex) (-48) None).
    unfold bind at 1. unfold alloc at 1.
    set (h3 := ((h ++ [String_split hex]) ++ [last48]) ++ [[]]).
    assert (Hlen3 : length h3 = (length h + 3)%nat)
      by (unfold h3; rewrite !length_app; simpl; lia).
    rewrite !length_app. simpl length.
    destruct (quads_loop_run (length h + 1)%nat (length h + 1 + 1)%nat 12 0 h3)
      as [h' [Hrun [Hres [Hle Hframe]]]]; try lia.
    erewrite bind_normal by exact Hrun. unfold ret.
    assert (Hl48 : deref h3 (length h + 1)%nat = last48).
    { unfold h3. rewrite deref_alloc_old by (rewrite !length_app; simpl; lia).
      replace (length h + 1)%nat with (length (h ++ [String_split hex]))
        by (rewrite length_app; simpl; lia).
      apply deref_alloc_new. }
    assert (Hgr : deref h3 (length h + 1 + 1)%nat = []).
    { unfold h3.
      replace (length h + 1 + 1)%nat with (length ((h ++ [String_split hex]) ++ [last48]))
        by (rewrite !length_app; simpl; lia).
      apply deref_alloc_new. }
    rewrite Hl48, Hgr in Hres.
    exists h', (length h + 1 + 1)%nat, (quads_loop last48).
    split; [reflexivity|]. split.
    + unfold splitGenesToQuads.
      rewrite splitGenesToQuads_body_loop, Hb. cbn [JS.bind].
      rewrite BigInt_toString_16. reflexivity.
    + split; [exact Hres|]. split; [lia|].
      intros l Hlt. rewrite Hframe by lia.
      unfold h3. rewrite !deref_alloc_old; try reflexivity;
        rewrite ?length_app; simpl; lia.
  - unfold bind at 1. unfold lift at 1. rewrite Hb. unfold alloc.
    exists (h ++ [[]]), (length h), []. split; [reflexivity|].
    split; [apply (decoder_rejected s e Hb)|].
    split; [apply deref_alloc_new|].
    split; [rewrite length_app; simpl; lia|].
    intros l Hlt. now apply deref_alloc_old.
Qed.

End HeapRuns.

(** C7: the decoder is deterministic: whatever the heap of array objects
    is when it runs (what earlier runs and the callers left there), a run on
    a given input ends normally and returns an array with the same sequence
    of groups, so two runs on the same input yield the same output
    sequence. *)
Theorem decoder_deterministic (s : jsstring) (h1 h2 : Heap.heap) :
  exists groups h1' a1 h2' a2,
    splitGenesToQuads_heap s h1 = (h1', Normal a1)
    /\ splitGenesToQuads_heap s h2 = (h2', Normal a2)
    /\ Heap.deref h1' a1 = groups
    /\ Heap.deref h2' a2 = groups
    /\ splitGenesToQuads s = Normal groups.
Proof.
  destruct (splitGenesToQuads_heap_run s h1) as [h1' [a1 [g1 [R1 [P1 [D1 _]]]]]].
  destruct (splitGenesToQuads_heap_run s h2) as [h2' [a2 [g2 [R2 [P2 [D2 _]]]]]].
  exists g1, h1', a1, h2', a2.
  repeat split; try assumption. congruence.
Qed.

